(** * ssh-parallels: a shallow embedding of [main.go] and its properties

    The program lists the virtual machines of Parallels Desktop, asks each
    running Linux guest for its network interfaces, pairs them with the
    adapters the hypervisor declares, and lets the operator pick one
    address in a termbox list box.

    Go strings are byte sequences: they are modelled by [string], whose
    characters ([ascii]) are the 256 byte values.  Go's [int] is modelled
    by [Z]; where the program does arithmetic on it the two's-complement
    wrap-around is written out ([Go.wrap]).  A run-time panic is an
    explicit outcome ([Go.Panicked]). *)

From Stdlib Require Import ZArith Ascii String List Lia Bool DecimalString.
From stdpp Require Import base gmap strings list.

Local Open Scope string_scope.
Local Open Scope Z_scope.

(** ** The Go runtime and standard library, as far as [main.go] uses them *)

Module Go.

(** A run-time panic of the Go runtime. *)
Inductive RuntimePanic : Type :=
| SliceBoundsOutOfRange (lo hi : Z) (len : nat).

(** What a call does: it returns a value or it panics. *)
Inductive Outcome (A : Type) : Type :=
| Returned (a : A)
| Panicked (p : RuntimePanic).

Arguments Returned {A} a.
Arguments Panicked {A} p.

Definition bind {A B} (m : Outcome A) (k : A -> Outcome B) : Outcome B :=
  match m with
  | Returned a => k a
  | Panicked p => Panicked p
  end.

Definition returns {A} (m : Outcome A) : bool :=
  match m with Returned _ => true | Panicked _ => false end.

(** [int] is 64 bits wide on the platforms Parallels Desktop runs on. *)
Definition minInt : Z := - 2 ^ 63.
Definition maxInt : Z := 2 ^ 63 - 1.
Definition wrap (z : Z) : Z := (z - minInt) mod 2 ^ 64 + minInt.
Definition add (a b : Z) : Z := wrap (a + b).
Definition sub (a b : Z) : Z := wrap (a - b).
(** [a / b] on [int] truncates toward zero. *)
Definition quo (a b : Z) : Z := wrap (Z.quot a b).

Definition len (s : string) : Z := Z.of_nat (String.length s).

(** [s[lo:hi]]: the bytes [lo .. hi-1]; out of range indices panic. *)
Definition slice (s : string) (lo hi : Z) : Outcome string :=
  if (0 <=? lo) && (lo <=? hi) && (hi <=? len s)
  then Returned (substring (Z.to_nat lo) (Z.to_nat (hi - lo)) s)
  else Panicked (SliceBoundsOutOfRange lo hi (String.length s)).

(** [s[lo:]] *)
Definition sliceFrom (s : string) (lo : Z) : Outcome string :=
  slice s lo (len s).

(** [s[:hi]] *)
Definition sliceTo (s : string) (hi : Z) : Outcome string :=
  slice s 0 hi.

Fixpoint allBytes (p : ascii -> bool) (s : string) : bool :=
  match s with
  | EmptyString => true
  | String c r => p c && allBytes p r
  end.

Fixpoint mapBytes (f : ascii -> ascii) (s : string) : string :=
  match s with
  | EmptyString => EmptyString
  | String c r => String (f c) (mapBytes f r)
  end.

Definition byteIn (lo hi : ascii) (c : ascii) : bool :=
  ((nat_of_ascii lo <=? nat_of_ascii c) && (nat_of_ascii c <=? nat_of_ascii hi))%nat.

(** [c < utf8.RuneSelf] *)
Definition isASCII (c : ascii) : bool := (nat_of_ascii c <? 128)%nat.

(** ['A' <= c && c <= 'Z'] then [c += 'a' - 'A'] *)
Definition lowerByte (c : ascii) : ascii :=
  if byteIn "A" "Z" c then ascii_of_nat (nat_of_ascii c + 32) else c.

(** [strings.ToLower].  On a string of ASCII bytes only the library
    lower-cases the letters A-Z byte by byte.  On any other string it maps
    [unicode.ToLower] over the decoded runes; the Unicode tables are not
    part of this development, so that branch is the parameter
    [unicodeToLower]. *)
Definition ToLower (unicodeToLower : string -> string) (s : string) : string :=
  if allBytes isASCII s then mapBytes lowerByte s else unicodeToLower s.

(** [strings.HasPrefix] *)
Definition HasPrefix (s p : string) : bool := String.prefix p s.

(** [s[n:]] where the program has just checked that [n <= len(s)]. *)
Fixpoint dropBytes (n : nat) (s : string) : string :=
  match n, s with
  | S n', String _ r => dropBytes n' r
  | _, _ => s
  end.

(** [strings.Trim(s, cutset) != ""], for a cutset of ASCII bytes: some
    byte of [s] is outside the cutset. *)
Fixpoint hasByteOutside (cutset : string) (s : string) : bool :=
  match s with
  | EmptyString => false
  | String c r =>
      if existsb (Ascii.eqb c) (list_ascii_of_string cutset) then hasByteOutside cutset r
      else true
  end.

(** *** [bufio.Scanner] with the default split function [ScanLines] *)

Definition newline : ascii := ascii_of_nat 10.
Definition carriageReturn : ascii := ascii_of_nat 13.
Definition tab : ascii := ascii_of_nat 9.

(** The text cut at every newline byte; a last line without newline counts
    when it is not empty. *)
Fixpoint rawLines (s : string) : list string :=
  match s with
  | EmptyString => []
  | String c r =>
      if Ascii.eqb c newline then EmptyString :: rawLines r
      else match rawLines r with
           | [] => [String c EmptyString]
           | l :: ls => String c l :: ls
           end
  end.

(** [dropCR]: one trailing carriage return is removed from a token. *)
Fixpoint dropCR (l : string) : string :=
  match l with
  | EmptyString => EmptyString
  | String c EmptyString => if Ascii.eqb c carriageReturn then EmptyString else l
  | String c r => String c (dropCR r)
  end.

(** [bufio.MaxScanTokenSize]: the scanner's buffer grows to this size and
    then gives up with [ErrTooLong]; [Scan] reports false from then on. *)
Definition MaxScanTokenSize : Z := 64 * 1024.

Fixpoint fittingTokens (ls : list string) : list string :=
  match ls with
  | [] => []
  | l :: r => if len l <? MaxScanTokenSize then l :: fittingTokens r else []
  end.

(** The successive values of [scanner.Text()] while [scanner.Scan()]
    holds. *)
Definition scanLines (text : string) : list string :=
  map dropCR (fittingTokens (rawLines text)).

(** *** [string(r)] for a rune [r]: its UTF-8 encoding *)

Definition byte (z : Z) : ascii := ascii_of_N (Z.to_N (Z.land z 255)).

Definition encodeRune (r : Z) : string :=
  if (r <? 0) || (1114111 <? r) || ((55296 <=? r) && (r <=? 57343))
  then String (byte 239) (String (byte 191) (String (byte 189) EmptyString))
  else if r <? 128 then String (byte r) EmptyString
  else if r <? 2048 then
    String (byte (Z.lor 192 (Z.shiftr r 6)))
      (String (byte (Z.lor 128 (Z.land r 63))) EmptyString)
  else if r <? 65536 then
    String (byte (Z.lor 224 (Z.shiftr r 12)))
      (String (byte (Z.lor 128 (Z.land (Z.shiftr r 6) 63)))
         (String (byte (Z.lor 128 (Z.land r 63))) EmptyString))
  else
    String (byte (Z.lor 240 (Z.shiftr r 18)))
      (String (byte (Z.lor 128 (Z.land (Z.shiftr r 12) 63)))
         (String (byte (Z.lor 128 (Z.land (Z.shiftr r 6) 63)))
            (String (byte (Z.lor 128 (Z.land r 63))) EmptyString))).

End Go.

(** ** Regular expressions

    The five patterns of [main.go] use literals, greedy repetition of a
    character class, one alternation and capture groups.  [regexp] finds
    the leftmost match and, among those, the one a backtracking search
    meets first; [matchK] is that search, in continuation-passing style.
    All classes are ASCII classes and no scanned line holds a newline, so
    matching bytes and matching runes agree. *)

Module Regexp.

Inductive re : Type :=
| Chr (c : ascii)
| Many (p : ascii -> bool)      (* [p*], greedy *)
| Many1 (p : ascii -> bool)     (* [p+], greedy *)
| Cat (a b : re)
| Alt (a b : re)
| Eps
| Cap (i : nat) (a : re).

Fixpoint Lit (s : string) : re :=
  match s with
  | EmptyString => Eps
  | String c EmptyString => Chr c
  | String c r => Cat (Chr c) (Lit r)
  end.

Definition Seq (rs : list re) : re := foldr Cat Eps rs.

(** [\d], [\w], [\s] and [.] *)
Definition digit (c : ascii) : bool := Go.byteIn "0" "9" c.
Definition word (c : ascii) : bool :=
  Go.byteIn "0" "9" c || Go.byteIn "A" "Z" c || Go.byteIn "a" "z" c || Ascii.eqb c "_".
Definition space (c : ascii) : bool :=
  let n := nat_of_ascii c in
  (n =? 9)%nat || (n =? 10)%nat || (n =? 12)%nat || (n =? 13)%nat || (n =? 32)%nat.
Definition notNewline (c : ascii) : bool := negb (Ascii.eqb c Go.newline).
(** [[\w:]] and [[\d.]] *)
Definition wordOrColon (c : ascii) : bool := word c || Ascii.eqb c ":".
Definition digitOrDot (c : ascii) : bool := digit c || Ascii.eqb c ".".

Definition Caps : Type := list (nat * string).

Fixpoint manyK {A} (p : ascii -> bool) (s : string) (k : string -> option A) : option A :=
  match s with
  | String c r =>
      if p c then
        match manyK p r k with
        | Some x => Some x
        | None => k s
        end
      else k s
  | EmptyString => k s
  end.

(** The bytes of [s] in front of its suffix [t]. *)
Definition consumed (s t : string) : string :=
  substring 0 (String.length s - String.length t) s.

Fixpoint matchK {A} (r : re) (s : string) (caps : Caps)
  (k : string -> Caps -> option A) : option A :=
  match r with
  | Chr c =>
      match s with
      | String d t => if Ascii.eqb c d then k t caps else None
      | EmptyString => None
      end
  | Many p => manyK p s (fun t => k t caps)
  | Many1 p =>
      match s with
      | String d t => if p d then manyK p t (fun u => k u caps) else None
      | EmptyString => None
      end
  | Cat a b => matchK a s caps (fun t caps' => matchK b t caps' k)
  | Alt a b =>
      match matchK a s caps k with
      | Some x => Some x
      | None => matchK b s caps k
      end
  | Eps => k s caps
  | Cap i a => matchK a s caps (fun t caps' => k t ((i, consumed s t) :: caps'))
  end.

(** The leftmost match: the pattern is tried at every position in turn. *)
Fixpoint search (r : re) (s : string) : option Caps :=
  match matchK (Cap 0 r) s [] (fun _ caps => Some caps) with
  | Some caps => Some caps
  | None =>
      match s with
      | String _ t => search r t
      | EmptyString => None
      end
  end.

Fixpoint group (caps : Caps) (i : nat) : string :=
  match caps with
  | [] => EmptyString
  | (j, v) :: rest => if (i =? j)%nat then v else group rest i
  end.

(** A compiled pattern and the number of its capture groups. *)
Record Regexp : Type := MustCompile { pattern : re; NumSubexp : nat }.

(** [re.FindStringSubmatch(s)]: [nil] without a match, else the match
    followed by the text of each group. *)
Definition FindStringSubmatch (r : Regexp) (s : string) : list string :=
  match search (pattern r) s with
  | Some caps => map (group caps) (seq 0 (S (NumSubexp r)))
  | None => []
  end.

End Regexp.

#[export] Instance outcome_bind : MBind Go.Outcome :=
  fun A B k m => Go.bind m k.
#[export] Instance outcome_ret : MRet Go.Outcome := @Go.Returned.

(** ** Errors

    [error] values are compared by identity.  [errCtrlC] is the package
    variable of [main.go]; every other error the program makes itself
    ([errors.New], [fmt.Errorf]) is a fresh value, and so is every error
    handed over by [os/exec] or termbox. *)

Inductive error : Type :=
| errCtrlC
| errorString (msg : string)
| foreignError (msg : string).

Definition error_eqb (a b : error) : bool :=
  match a, b with
  | errCtrlC, errCtrlC => true
  | _, _ => false
  end.

(** ** The guest, reached through [prlctl exec] *)

(** What [exec.Command("prlctl", args...).Output()] gives back: the bytes
    of standard output and the error, if any. *)
Definition Prlctl : Type := list string -> string * option error.

(** The command lines handed to [prlctl], in the order they are run. *)
Definition Log : Type := list (list string).

(** ** Data model *)

(** A value of type [interface{}] as [encoding/json] decodes it.  A
    number is a [float64], kept by its IEEE 754 bit pattern. *)
#[warnings="-register-all"]
Inductive JValue : Type :=
| JNull
| JBool (b : bool)
| JNumber (bits : Z)
| JString (s : string)
| JArray (l : list JValue)
| JObject (m : gmap string JValue).

Module GuestTools.
Record t : Type := Build { State : string; Version : string }.
End GuestTools.

Module VM.
Record t : Type := Build {
  ID : string;
  Name : string;
  Type_ : string;
  State : string;
  OS : string;
  Uptime : string;
  Home : string;
  GuestTools : GuestTools.t;
  Hardware : gmap string (gmap string JValue)
}.
End VM.

Module LinuxIpAddr.
Record t : Type := Build {
  IfName : string;
  LinkType : string;
  Mac : string;
  Ip : string;
  Broadcast : string;
  Mask : string
}.
(** [&LinuxIpAddr{}] *)
Definition zero : t := Build "" "" "" "" "" "".
End LinuxIpAddr.

Module IpAddr.
Record t : Type := Build {
  IP : LinuxIpAddr.t;
  VM : VM.t;
  Name : string;
  IsDefault : bool;
  Type_ : string
}.
End IpAddr.

(** ** The line patterns *)

Import Regexp.

(** ["(\d+: |)(\w+): .*"] *)
Definition beginLinePattern : Regexp :=
  MustCompile
    (Seq [Cap 1 (Alt (Cat (Many1 digit) (Lit ": ")) Eps);
          Cap 2 (Many1 word); Lit ": "; Many notNewline]) 2.

(** ["link/(\w+) ([\w:]+) brd ([\w:]+)"] *)
Definition linkLinePattern : Regexp :=
  MustCompile
    (Seq [Lit "link/"; Cap 1 (Many1 word); Lit " "; Cap 2 (Many1 wordOrColon);
          Lit " brd "; Cap 3 (Many1 wordOrColon)]) 3.

(** ["inet ([\d.]+)/(\d+) brd ([\d.]+) .*"] *)
Definition inetLinePattern : Regexp :=
  MustCompile
    (Seq [Lit "inet "; Cap 1 (Many1 digitOrDot); Lit "/"; Cap 2 (Many1 digit);
          Lit " brd "; Cap 3 (Many1 digitOrDot); Lit " "; Many notNewline]) 3.

(** ["ether ([\w:]+).*"] *)
Definition etherLinkPattern : Regexp :=
  MustCompile (Seq [Lit "ether "; Cap 1 (Many1 wordOrColon); Many notNewline]) 1.

(** ["inet ([\d.]+)\s+netmask\s+([\d.]+)\s+broadcast\s+([\d.]+)"] *)
Definition inetLinePattern2 : Regexp :=
  MustCompile
    (Seq [Lit "inet "; Cap 1 (Many1 digitOrDot); Many1 space; Lit "netmask";
          Many1 space; Cap 2 (Many1 digitOrDot); Many1 space; Lit "broadcast";
          Many1 space; Cap 3 (Many1 digitOrDot)]) 3.

(** [m[i]], for [m] the result of [FindStringSubmatch]: a match always has
    one entry per group, so the index is in range wherever the program
    reads it (after [len(m) > 0]). *)
Definition sub (m : list string) (i : nat) : string := nth i m "".

(** ** Probing and reading the guest *)

Section Guest.

Variable prlctl : Prlctl.

(** [vm.exec(args...)] *)
Definition exec (vm : VM.t) (args : list string) : (string * option error) * Log :=
  let cmdline := "exec" :: VM.ID vm :: args in
  (prlctl cmdline, [cmdline]).

(** The loop of [testCommandExists] over the lines of the [whereis]
    output. *)
Fixpoint whereisFinds (cmd : string) (lines : list string) : bool :=
  match lines with
  | [] => false
  | s :: rest =>
      if Go.HasPrefix s (cmd ++ ":")
      then Go.hasByteOutside " " (Go.dropBytes (String.length (cmd ++ ":")) s)
      else whereisFinds cmd rest
  end.

Definition testCommandExists (vm : VM.t) (cmd : string) : bool * Log :=
  let '((output, err), log) := exec vm ["whereis"; cmd] in
  match err with
  | Some _ => (false, log)
  | None => (whereisFinds cmd (Go.scanLines output), log)
  end.

(** *** [getIps]: the single pass over the listing *)

(** The variables [ip] (nil before the first interface line) and [ips] of
    the scanning loop. *)
Record Assembler : Type := MkAssembler {
  current : option LinuxIpAddr.t;
  ips : list LinuxIpAddr.t
}.

(** [if ip != nil { ips = append(ips, ip) }] *)
Definition flush (st : Assembler) : list LinuxIpAddr.t :=
  match current st with
  | Some ip => (ips st ++ [ip])%list
  | None => ips st
  end.

Definition setIfName (ip : LinuxIpAddr.t) (name : string) : LinuxIpAddr.t :=
  LinuxIpAddr.Build name (LinuxIpAddr.LinkType ip) (LinuxIpAddr.Mac ip)
    (LinuxIpAddr.Ip ip) (LinuxIpAddr.Broadcast ip) (LinuxIpAddr.Mask ip).

(** [ip.Ip = m[1]; ip.Mask = m[2]; ip.Broadcast = m[3]] *)
Definition setInet (ip : LinuxIpAddr.t) (m : list string) : LinuxIpAddr.t :=
  LinuxIpAddr.Build (LinuxIpAddr.IfName ip) (LinuxIpAddr.LinkType ip)
    (LinuxIpAddr.Mac ip) (sub m 1) (sub m 3) (sub m 2).

(** [ip.LinkType = typ; ip.Mac = mac] *)
Definition setLink (ip : LinuxIpAddr.t) (typ mac : string) : LinuxIpAddr.t :=
  LinuxIpAddr.Build (LinuxIpAddr.IfName ip) typ mac
    (LinuxIpAddr.Ip ip) (LinuxIpAddr.Broadcast ip) (LinuxIpAddr.Mask ip).

(** A line that does not start with a blank or a tab opens a record. *)
Definition opensRecord (s : string) : bool :=
  match s with
  | EmptyString => false
  | String c _ => negb (Ascii.eqb c " ") && negb (Ascii.eqb c Go.tab)
  end.

(** [ip = &LinuxIpAddr{}] and the name, when the begin pattern matches. *)
Definition newRecord (s : string) : LinuxIpAddr.t :=
  let m := FindStringSubmatch beginLinePattern s in
  if (0 <? length m)%nat then setIfName LinuxIpAddr.zero (sub m 2)
  else LinuxIpAddr.zero.

(** The body of [if ip != nil { ... }] for an indented line. *)
Definition infoLine (isIfconfig : bool) (ip : LinuxIpAddr.t) (s : string) : LinuxIpAddr.t :=
  if isIfconfig then
    let m := FindStringSubmatch inetLinePattern2 s in
    if (0 <? length m)%nat then setInet ip m
    else
      let m := FindStringSubmatch etherLinkPattern s in
      if (0 <? length m)%nat then setLink ip "ether" (sub m 1) else ip
  else
    let m := FindStringSubmatch inetLinePattern s in
    if (0 <? length m)%nat then setInet ip m
    else
      let m := FindStringSubmatch linkLinePattern s in
      if (0 <? length m)%nat then setLink ip (sub m 1) (sub m 2) else ip.

(** One turn of [for scanner.Scan() { ... }]. *)
Definition scanStep (isIfconfig : bool) (st : Assembler) (s : string) : Assembler :=
  match s with
  | EmptyString => st
  | String c _ =>
      if negb (Ascii.eqb c " ") && negb (Ascii.eqb c Go.tab)
      then MkAssembler (Some (newRecord s)) (flush st)
      else
        match current st with
        | Some ip => MkAssembler (Some (infoLine isIfconfig ip s)) (ips st)
        | None => st
        end
  end.

(** Lines 189-238: the loop and the last flush. *)
Definition assemble (isIfconfig : bool) (output : string) : list LinuxIpAddr.t :=
  flush (fold_left (scanStep isIfconfig) (Go.scanLines output) (MkAssembler None [])).

(** Lines 185-238, once the command has been run. *)
Definition parseOutput (isIfconfig : bool) (output : string) (err : option error)
  : list LinuxIpAddr.t * option error :=
  match err with
  | Some e => ([], Some e)
  | None => (assemble isIfconfig output, None)
  end.

Definition errNoCommand : error := errorString "No command to get ip address".

Definition getIps (vm : VM.t) : (list LinuxIpAddr.t * option error) * Log :=
  let '(hasIfconfig, log1) := testCommandExists vm "ifconfig" in
  if hasIfconfig then
    let '((output, err), log2) := exec vm ["ifconfig"] in
    (parseOutput true output err, (log1 ++ log2)%list)
  else
    let '(hasIp, log2) := testCommandExists vm "ip" in
    if hasIp then
      let '((output, err), log3) := exec vm ["ip"; "address"; "show"] in
      (parseOutput false output err, (log1 ++ log2 ++ log3)%list)
    else
      (parseOutput false "" (Some errNoCommand), (log1 ++ log2)%list).

End Guest.

(** ** MAC comparison *)

Section Normalisation.

Variable unicodeToLower : string -> string.

(** Lines 242-243 of [compareMac]: lower-case the hypervisor's MAC and
    cut it at the fixed positions 2, 4, 6, 8 and 10. *)
Definition normalizeMac (prlMac : string) : Go.Outcome string :=
  let m := Go.ToLower unicodeToLower prlMac in
  a ← Go.slice m 0 2;
  b ← Go.slice m 2 4;
  c ← Go.slice m 4 6;
  d ← Go.slice m 6 8;
  e ← Go.slice m 8 10;
  f ← Go.sliceFrom m 10;
  Go.Returned (a ++ ":" ++ b ++ ":" ++ c ++ ":" ++ d ++ ":" ++ e ++ ":" ++ f).

Definition compareMac (linuxMac prlMac : string) : Go.Outcome bool :=
  m ← normalizeMac prlMac;
  Go.Returned (String.eqb linuxMac m).

End Normalisation.


(** ** Correlation with the declared adapters *)

(** [v == true], for [v] of type [interface{}] *)
Definition isTrue (v : option JValue) : bool :=
  match v with
  | Some (JBool true) => true
  | _ => false
  end.

(** [s, _ := v.(string)] *)
Definition asString (v : option JValue) : string :=
  match v with
  | Some (JString s) => s
  | _ => ""
  end.

(** [v == "default"], for [v] of type [interface{}] *)
Definition isString (v : option JValue) (s : string) : bool :=
  match v with
  | Some (JString t) => String.eqb t s
  | _ => false
  end.

(** A [range] statement over a Go map visits the entries in an order the
    language leaves open, and a new one each time.  [RangeOrder] gives, for
    the [k]-th record of the outer loop, the order in which the inner loop
    visits [vm.Hardware]. *)
Definition RangeOrder : Type := nat -> list (string * gmap string JValue).

Definition ranges (hw : gmap string (gmap string JValue)) (order : RangeOrder) : Prop :=
  forall k, order k ≡ₚ map_to_list hw.

Section Correlation.

Variable unicodeToLower : string -> string.
Variable prlctl : Prlctl.

(** Lines 266-283: the inner loop, for one record. *)
Fixpoint matchAdapter (vm : VM.t) (ip : LinuxIpAddr.t)
  (visit : list (string * gmap string JValue)) : Go.Outcome (option IpAddr.t) :=
  match visit with
  | [] => Go.Returned None
  | (dev, params) :: rest =>
      if Go.HasPrefix dev "net" then
        if isTrue (params !! "enabled") then
          let mac := asString (params !! "mac") in
          hit ← compareMac unicodeToLower (LinuxIpAddr.Mac ip) mac;
          if hit : bool then
            Go.Returned (Some (IpAddr.Build ip vm dev
                                 (isString (params !! "iface") "default")
                                 (asString (params !! "type"))))
          else matchAdapter vm ip rest
        else matchAdapter vm ip rest
      else matchAdapter vm ip rest
  end.

(** Lines 265-284: the outer loop; [addrs] is the slice built so far and
    [k] counts the records already handled. *)
Fixpoint correlate (vm : VM.t) (order : RangeOrder) (k : nat)
  (ips : list LinuxIpAddr.t) (addrs : list IpAddr.t) : Go.Outcome (list IpAddr.t) :=
  match ips with
  | [] => Go.Returned addrs
  | ip :: rest =>
      found ← matchAdapter vm ip (order k);
      correlate vm order (S k) rest
        (match found with
         | Some a => addrs ++ [a]
         | None => addrs
         end)
  end.

Definition errNotRunning (vm : VM.t) : error :=
  errorString (VM.Name vm ++ "(" ++ VM.ID vm ++ ") not running").

Definition errNotSupported (vm : VM.t) : error :=
  errorString (VM.OS vm ++ " is not supported").

Definition showIpAddress (vm : VM.t) (order : RangeOrder)
  : Go.Outcome (list IpAddr.t * option error) * Log :=
  if negb (String.eqb (VM.State vm) "running") then
    (Go.Returned ([], Some (errNotRunning vm)), [])
  else if String.eqb (VM.OS vm) "linux" || String.eqb (VM.OS vm) "ubuntu" then
    let '((ips, err), log) := getIps prlctl vm in
    match err with
    | Some e => (Go.Returned ([], Some e), log)
    | None =>
        (addrs ← correlate vm order 0 ips []; Go.Returned (addrs, None), log)
    end
  else
    (Go.Returned ([], Some (errNotSupported vm)), []).

(** Lines 47-54 of [main]: the addresses of all machines; a machine whose
    [showIpAddress] reports an error is passed over.  Each machine comes
    with the orders in which its hardware map is visited. *)
Fixpoint collect (vms : list (VM.t * RangeOrder)) (availableIps : list IpAddr.t)
  : Go.Outcome (list IpAddr.t) * Log :=
  match vms with
  | [] => (Go.Returned availableIps, [])
  | (vm, order) :: rest =>
      match showIpAddress vm order with
      | (Go.Panicked p, log) => (Go.Panicked p, log)
      | (Go.Returned (ips, err), log) =>
          let '(r, log') :=
            collect rest (match err with
                          | Some _ => availableIps
                          | None => availableIps ++ ips
                          end) in
          (r, (log ++ log')%list)
      end
  end.

End Correlation.

(** ** termbox, as far as the two dialogs use it

    Painting ([Clear], [SetCell], [Flush]) changes the terminal only and
    feeds nothing back into the program; it is left out.  What the
    program reads from termbox is the result of [Init], the size of the
    terminal and the events. *)

Module Termbox.

Inductive EventType : Type :=
| EventKey | EventResize | EventMouse | EventError
| EventInterrupt | EventRaw | EventNone.

Record Event : Type := MkEvent {
  Type_ : EventType;
  Mod : Z;
  Key : Z;
  Ch : Z;
  Width : Z;
  Height : Z;
  Err : option string;   (* an error of termbox, by its message *)
  MouseX : Z;
  MouseY : Z;
  N : Z
}.

(** The key codes of termbox-go ([api_common.go]); [Key] is a [uint16]. *)
Definition KeyCtrlC : Z := 3.
Definition KeyBackspace : Z := 8.
Definition KeyEnter : Z := 13.
Definition KeyEsc : Z := 27.
Definition KeyBackspace2 : Z := 127.
Definition KeyDelete : Z := 65535 - 13.
Definition KeyPgup : Z := 65535 - 16.
Definition KeyPgdn : Z := 65535 - 17.
Definition KeyArrowUp : Z := 65535 - 18.
Definition KeyArrowDown : Z := 65535 - 19.
Definition KeyArrowLeft : Z := 65535 - 20.
Definition KeyArrowRight : Z := 65535 - 21.
Definition MouseWheelUp : Z := 65535 - 27.
Definition MouseWheelDown : Z := 65535 - 28.

(** An event as [PollEvent] delivers it, with the size [termbox.Size()]
    reports while the program handles it. *)
Record Input : Type := MkInput { event : Event; size : Z * Z }.

Definition keyPress (k : Z) : Event :=
  MkEvent EventKey 0 k 0 0 0 None 0 0 0.
Definition charPress (c : ascii) : Event :=
  MkEvent EventKey 0 0 (Z.of_nat (nat_of_ascii c)) 0 0 None 0 0 0.
Definition mouse (k : Z) : Event :=
  MkEvent EventMouse 0 k 0 0 0 None 0 0 0.

End Termbox.

Import Termbox.

(** What a dialog has done when the events at hand are used up: it has
    returned, or it sits in [PollEvent]. *)
Inductive Poll (A : Type) : Type :=
| Done (a : A)
| Waiting.

Arguments Done {A} a.
Arguments Waiting {A}.

(** ** The list box *)

Record listBox : Type := MkListBox {
  title : string;
  titlePosX : Z; titlePosY : Z;
  originX : Z; originY : Z;
  centerX : Z; centerY : Z;
  width : Z;
  height : Z;
  selectIndex : Z;
  content : list string
}.

(** [&listBox{title: t, content: c}] *)
Definition newListBox (t : string) (c : list string) : listBox :=
  MkListBox t 0 0 0 0 0 0 0 0 0 c.

Definition lenContent (lb : listBox) : Z := Z.of_nat (length (content lb)).

Definition setSelectIndex (lb : listBox) (i : Z) : listBox :=
  MkListBox (title lb) (titlePosX lb) (titlePosY lb) (originX lb) (originY lb)
    (centerX lb) (centerY lb) (width lb) (height lb) i (content lb).

(** Lines 305-309: the loop over the content lines, on [lb.width]. *)
Definition widen (w : Z) (l : string) : Z :=
  if w <? Go.len l then Go.add (Go.len l) 12 else w.

(** Lines 299-322 of [drawContent]: the geometry, for a terminal of
    [tw] columns and [th] rows. *)
Definition drawContent (tw th : Z) (lb : listBox) : listBox * option error :=
  match content lb with
  | [] => (lb, Some (errorString "miss content"))
  | _ =>
      let height := Go.add (lenContent lb) 2 in
      let width := fold_left widen (content lb) (width lb) in
      let width := if width <? Go.len (title lb) then Go.len (title lb) else width in
      let centerX := Go.quo tw 2 in
      let centerY := Go.quo th 2 in
      let titlePosX := Go.sub centerX (Go.quo (Go.len (title lb)) 2) in
      let titlePosY := Go.sub (Go.sub centerY (Go.quo height 2)) 2 in
      let originX := Go.sub centerX (Go.quo width 2) in
      let originY := Go.sub centerY (Go.quo height 2) in
      (MkListBox (title lb) titlePosX titlePosY originX originY centerX centerY
         width height (selectIndex lb) (content lb), None)
  end.

Definition moveDown (tw th : Z) (lb : listBox) : listBox :=
  if selectIndex lb <? Go.sub (lenContent lb) 1
  then fst (drawContent tw th (setSelectIndex lb (Go.add (selectIndex lb) 1)))
  else lb.

Definition moveUp (tw th : Z) (lb : listBox) : listBox :=
  if 0 <? selectIndex lb
  then fst (drawContent tw th (setSelectIndex lb (Go.sub (selectIndex lb) 1)))
  else lb.

Definition isKey (ev : Event) (keys : list Z) : bool :=
  existsb (Z.eqb (Key ev)) keys.

Definition isCh (ev : Event) (chars : list ascii) : bool :=
  existsb (fun c => Ch ev =? Z.of_nat (nat_of_ascii c)) chars.

(** One turn of the loop of [displayAndSelect]: the list box afterwards
    and, when the function returns, its results. *)
Definition handleEvent (lb : listBox) (i : Input)
  : listBox * option (Z * option error) :=
  let ev := event i in
  let '(tw, th) := size i in
  match Type_ ev with
  | EventResize => (fst (drawContent tw th lb), None)
  | EventKey =>
      if isKey ev [KeyCtrlC] then (lb, Some (selectIndex lb, Some errCtrlC))
      else if isKey ev [KeyArrowUp; KeyArrowLeft; KeyPgup] then (moveUp tw th lb, None)
      else if isKey ev [KeyArrowDown; KeyArrowRight; KeyPgdn] then (moveDown tw th lb, None)
      else if isKey ev [KeyEsc] then (lb, Some (0, Some errCtrlC))
      else if isKey ev [KeyEnter] then (lb, Some (selectIndex lb, None))
      else if isCh ev ["q"; "Q"]%char then (lb, Some (0, Some errCtrlC))
      else if isCh ev ["k"; "K"]%char then (moveUp tw th lb, None)
      else if isCh ev ["j"; "J"]%char then (moveDown tw th lb, None)
      else (lb, None)
  | EventMouse =>
      if isKey ev [MouseWheelUp] then (moveUp tw th lb, None)
      else if isKey ev [MouseWheelDown] then (moveDown tw th lb, None)
      else (lb, None)
  | EventError => (lb, Some (-1, foreignError <$> Err ev))
  | _ => (lb, None)
  end.

Fixpoint eventLoop (lb : listBox) (inputs : list Input)
  : listBox * Poll (Z * option error) :=
  match inputs with
  | [] => (lb, Waiting)
  | i :: rest =>
      match handleEvent lb i with
      | (lb', Some r) => (lb', Done r)
      | (lb', None) => eventLoop lb' rest
      end
  end.

(** [displayAndSelect], for the result [init] of [termbox.Init()], a
    terminal of [tw] by [th] cells at the first drawing, and the events
    that follow. *)
Definition displayAndSelect (init : option string) (tw th : Z)
  (lb : listBox) (inputs : list Input) : listBox * Poll (Z * option error) :=
  match init with
  | Some err => (lb, Done (-1, Some (foreignError err)))
  | None => eventLoop (fst (drawContent tw th lb)) inputs
  end.

(** What [main] prints when [displayAndSelect] comes back (lines 71-77). *)
Definition notice (r : Z * option error) : option string :=
  match snd r with
  | Some err => if error_eqb err errCtrlC then Some "cancel login to vm" else None
  | None => None
  end.

(** ** The user name prompt *)

(** One turn of the loop of [askForUsername] on the buffer [name]: the
    buffer afterwards, or the results when the function returns. *)
Definition editStep (name : string) (ev : Event)
  : Go.Outcome (string + (string * option error)) :=
  match Type_ ev with
  | EventResize => Go.Returned (inl name)
  | EventKey =>
      if isKey ev [KeyCtrlC] then Go.Returned (inr ("", Some errCtrlC))
      else if isKey ev [KeyEsc] then Go.Returned (inr ("", Some (errorString "cancelled")))
      else if isKey ev [KeyBackspace; KeyBackspace2; KeyDelete] then
        name' ← Go.sliceTo name (Go.sub (Go.len name) 2);
        Go.Returned (inl name')
      else if isKey ev [KeyEnter] then Go.Returned (inr (name, None))
      else Go.Returned (inl (name ++ Go.encodeRune (Ch ev)))
  | _ => Go.Returned (inl name)
  end.

Fixpoint entering (name : string) (events : list Event)
  : Go.Outcome (Poll (string * option error)) :=
  match events with
  | [] => Go.Returned Waiting
  | ev :: rest =>
      r ← editStep name ev;
      match r with
      | inl name' => entering name' rest
      | inr res => Go.Returned (Done res)
      end
  end.

(** [askForUsername(info)]; [info] only appears in the label painted above
    the box. *)
Definition askForUsername (info : string) (init : option string) (events : list Event)
  : Go.Outcome (Poll (string * option error)) :=
  match init with
  | Some err => Go.Returned (Done ("", Some (foreignError err)))
  | None => entering "" events
  end.

(** ** [main]

    The flags come parsed, the machines come from [listVMs] (the JSON
    decoding is not modelled), and the two termbox dialogs come with what
    termbox hands them.  A run is described by what it leaves behind: the
    [prlctl] commands, the texts printed, and the [ssh] command started,
    if any. *)

(** *** [fmt] and [strconv] *)

(** The entry of the table [first] of [unicode/utf8] for a lead byte: the
    length of the encoding and the range accepted for the second byte;
    nothing for the bytes that start no encoding of two bytes or more. *)
Definition leadByte (c : ascii) : option (nat * (nat * nat)) :=
  let n := nat_of_ascii c in
  if ((194 <=? n) && (n <=? 223))%nat then Some (2, (128, 191))%nat
  else if (n =? 224)%nat then Some (3, (160, 191))%nat
  else if ((225 <=? n) && (n <=? 236))%nat then Some (3, (128, 191))%nat
  else if (n =? 237)%nat then Some (3, (128, 159))%nat
  else if ((238 <=? n) && (n <=? 239))%nat then Some (3, (128, 191))%nat
  else if (n =? 240)%nat then Some (4, (144, 191))%nat
  else if ((241 <=? n) && (n <=? 243))%nat then Some (4, (128, 191))%nat
  else if (n =? 244)%nat then Some (4, (128, 143))%nat
  else None.

Definition byteBetween (lo hi : nat) (c : ascii) : bool :=
  ((lo <=? nat_of_ascii c) && (nat_of_ascii c <=? hi))%nat.

(** The bytes that the rune at the head of [String c r] takes; a byte that
    starts no well-formed encoding counts as a rune of its own. *)
Definition runeSize (c : ascii) (r : string) : nat :=
  if Go.isASCII c then 1%nat
  else
    match leadByte c with
    | None => 1%nat
    | Some (size, (lo, hi)) =>
        if (String.length r <? size - 1)%nat then 1%nat
        else
          match r with
          | String c1 r1 =>
              if negb (byteBetween lo hi c1) then 1%nat
              else if (size =? 2)%nat then 2%nat
              else
                match r1 with
                | String c2 r2 =>
                    if negb (byteBetween 128 191 c2) then 1%nat
                    else if (size =? 3)%nat then 3%nat
                    else
                      match r2 with
                      | String c3 _ =>
                          if negb (byteBetween 128 191 c3) then 1%nat else 4%nat
                      | EmptyString => 1%nat
                      end
                | EmptyString => 1%nat
                end
          | EmptyString => 1%nat
          end
    end.

(** [utf8.RuneCountInString]; [skip] bytes belong to the rune counted
    last. *)
Fixpoint countRunes (skip : nat) (s : string) : nat :=
  match s with
  | EmptyString => 0%nat
  | String c r =>
      match skip with
      | S k => countRunes k r
      | O => S (countRunes (runeSize c r - 1) r)
      end
  end.

Definition RuneCountInString (s : string) : nat := countRunes 0 s.

Fixpoint spaces (n : nat) : string :=
  match n with
  | O => EmptyString
  | S k => String " " (spaces k)
  end.

(** The verb [%-Ns]: the text, then blanks up to [wid] runes. *)
Definition padRight (wid : nat) (s : string) : string :=
  s ++ spaces (wid - RuneCountInString s).

(** [strconv.Itoa] *)
Definition Itoa (z : Z) : string := NilZero.string_of_int (Z.to_int z).

(** *** The run *)

Record Flags : Type := MkFlags {
  port : Z;
  user : string;
  help : bool;
  ask : bool
}.

(** A text and the newline after it. *)
Definition println (s : string) : string := s ++ String Go.newline "".

Definition helpText : string :=
  println "ssh-parallels [options]" ++
  println "--port, -p" ++
  println (String Go.tab "set ssh port, default is 22") ++
  println "--user, -u, -l" ++
  println (String Go.tab "set username to ssh login, default is root") ++
  println "--ask, -a" ++
  println (String Go.tab "ask username before login") ++
  println "--help, h" ++
  println (String Go.tab "display help content").

(** [fmt.Sprintf(" %-20s: %-15s (%s)", ip.VM.Name, ip.IP.Ip, ip.Type)] *)
Definition displayLine (ip : IpAddr.t) : string :=
  " " ++ padRight 20 (VM.Name (IpAddr.VM ip)) ++ ": "
      ++ padRight 15 (LinuxIpAddr.Ip (IpAddr.IP ip)) ++ " (" ++ IpAddr.Type_ ip ++ ")".

(** [fmt.Sprintf("%s (%s)", ip.VM.Name, ip.IP.Ip)] *)
Definition promptInfo (ip : IpAddr.t) : string :=
  VM.Name (IpAddr.VM ip) ++ " (" ++ LinuxIpAddr.Ip (IpAddr.IP ip) ++ ")".

(** The command line of [sshLogin]. *)
Definition sshLogin (ip : IpAddr.t) (user : string) (port : Z) : list string :=
  ["ssh"; LinuxIpAddr.Ip (IpAddr.IP ip); "-l"; user; "-p"; Itoa port].

(** How a run ends: [main] returns, the program panics, or it sits in
    [PollEvent] with no event left. *)
Inductive Ending : Type :=
| Exited
| Crashed (p : Go.RuntimePanic)
| IndexOutOfRange
| Blocked.

Record Run : Type := MkRun {
  commands : Log;
  printed : list string;
  launched : option (list string);
  ending : Ending
}.

(** What termbox hands to the list box and to the prompt. *)
Record ListSession : Type := MkListSession {
  listInit : option string;
  listSize : Z * Z;
  listInputs : list Input
}.

Record PromptSession : Type := MkPromptSession {
  promptInit : option string;
  promptEvents : list Event
}.

Section Main.

Variable unicodeToLower : string -> string.
Variable prlctl : Prlctl.

(** Lines 79-90: after a selection without error. *)
Definition connect (flags : Flags) (availableIps : list IpAddr.t) (index : Z)
  (ps : PromptSession) (log : Log) (out : list string) : Run :=
  if (0 <=? index) && (index <? Z.of_nat (length availableIps)) then
    match availableIps !! Z.to_nat index with
    | None => MkRun log out None IndexOutOfRange
    | Some ip =>
        if ask flags then
          match askForUsername (promptInfo ip) (promptInit ps) (promptEvents ps) with
          | Go.Panicked p => MkRun log out None (Crashed p)
          | Go.Returned Waiting => MkRun log out None Blocked
          | Go.Returned (Done (_, Some _)) =>
              MkRun log out (Some (sshLogin ip (user flags) (port flags))) Exited
          | Go.Returned (Done (username, None)) =>
              MkRun log out (Some (sshLogin ip username (port flags))) Exited
          end
        else MkRun log out (Some (sshLogin ip (user flags) (port flags))) Exited
    end
  else MkRun log out None Exited.

Definition main (flags : Flags) (vms : list (VM.t * RangeOrder))
  (ls : ListSession) (ps : PromptSession) : Run :=
  if help flags then MkRun [] [helpText] None Exited
  else
    match collect unicodeToLower prlctl vms [] with
    | (Go.Panicked p, log) => MkRun log [] None (Crashed p)
    | (Go.Returned availableIps, log) =>
        match availableIps with
        | [] => MkRun log [println "no available(running) vm found!"] None Exited
        | _ =>
            let lb := newListBox "Choose VM from parallels" (map displayLine availableIps) in
            match snd (displayAndSelect (listInit ls) (fst (listSize ls))
                         (snd (listSize ls)) lb (listInputs ls)) with
            | Waiting => MkRun log [] None Blocked
            | Done (index, Some err) =>
                MkRun log
                  (if error_eqb err errCtrlC then [println "cancel login to vm"] else [])
                  None Exited
            | Done (index, None) => connect flags availableIps index ps log []
            end
        end
    end.

End Main.

(** ** Sample guests and machines *)

Definition nl : string := String Go.newline EmptyString.

(** A guest given by the output of the commands it knows (the arguments
    after [prlctl exec ID]); any other command fails. *)
Definition guest (table : list (list string * string)) : Prlctl :=
  fun cmdline =>
    match list_find (fun e => bool_decide (fst e = drop 2 cmdline)) table with
    | Some (_, (_, out)) => (out, None)
    | None => ("", Some (foreignError "exit status 1"))
    end.

Definition sampleIp : string :=
  "1: lo: <LOOPBACK,UP,LOWER_UP> mtu 65536 qdisc noqueue state UNKNOWN group default qlen 1000" ++ nl ++
  "    link/loopback 00:00:00:00:00:00 brd 00:00:00:00:00:00" ++ nl ++
  "    inet 127.0.0.1/8 scope host lo" ++ nl ++
  "       valid_lft forever preferred_lft forever" ++ nl ++
  "2: eth0: <BROADCAST,MULTICAST,UP,LOWER_UP> mtu 1500 qdisc fq_codel state UP group default qlen 1000" ++ nl ++
  "    link/ether 00:1c:42:c4:5c:24 brd ff:ff:ff:ff:ff:ff" ++ nl ++
  "    inet 10.211.55.5/24 brd 10.211.55.255 scope global dynamic eth0" ++ nl ++
  "       valid_lft 1469sec preferred_lft 1469sec" ++ nl ++
  "    inet6 fe80::21c:42ff:fec4:5c24/64 scope link" ++ nl.

Definition sampleIfconfig : string :=
  "eth0: flags=4163<UP,BROADCAST,RUNNING,MULTICAST>  mtu 1500" ++ nl ++
  "        inet 10.211.55.5  netmask 255.255.255.0  broadcast 10.211.55.255" ++ nl ++
  "        inet6 fe80::21c:42ff:fec4:5c24  prefixlen 64  scopeid 0x20<link>" ++ nl ++
  "        ether 00:1c:42:c4:5c:24  txqueuelen 1000  (Ethernet)" ++ nl ++
  nl ++
  "lo: flags=73<UP,LOOPBACK,RUNNING>  mtu 65536" ++ nl ++
  "        inet 127.0.0.1  netmask 255.0.0.0" ++ nl.

(** [ifconfig] on a guest whose [eth0] has an alias [eth0:1]: the two
    interfaces have one MAC. *)
Definition sampleIfconfigAlias : string :=
  "eth0: flags=4163<UP,BROADCAST,RUNNING,MULTICAST>  mtu 1500" ++ nl ++
  "        inet 10.211.55.5  netmask 255.255.255.0  broadcast 10.211.55.255" ++ nl ++
  "        ether 00:1c:42:c4:5c:24  txqueuelen 1000  (Ethernet)" ++ nl ++
  nl ++
  "eth0:1: flags=4163<UP,BROADCAST,RUNNING,MULTICAST>  mtu 1500" ++ nl ++
  "        inet 10.211.55.6  netmask 255.255.255.0  broadcast 10.211.55.255" ++ nl ++
  "        ether 00:1c:42:c4:5c:24  txqueuelen 1000  (Ethernet)" ++ nl.

(** A guest with [ifconfig] only, one with [ip] only, one with both and
    one with neither. *)
Definition guestIfconfig : Prlctl :=
  guest [(["whereis"; "ifconfig"], "ifconfig: /sbin/ifconfig" ++ nl);
         (["whereis"; "ip"], "ip:" ++ nl);
         (["ifconfig"], sampleIfconfig)].

Definition guestIp : Prlctl :=
  guest [(["whereis"; "ifconfig"], "ifconfig:" ++ nl);
         (["whereis"; "ip"], "ip: /sbin/ip /usr/share/man/man8/ip.8.gz" ++ nl);
         (["ip"; "address"; "show"], sampleIp)].

Definition guestBoth : Prlctl :=
  guest [(["whereis"; "ifconfig"], "ifconfig: /sbin/ifconfig" ++ nl);
         (["whereis"; "ip"], "ip: /sbin/ip" ++ nl);
         (["ifconfig"], sampleIfconfig);
         (["ip"; "address"; "show"], sampleIp)].

Definition guestAlias : Prlctl :=
  guest [(["whereis"; "ifconfig"], "ifconfig: /sbin/ifconfig" ++ nl);
         (["ifconfig"], sampleIfconfigAlias)].

Definition guestNeither : Prlctl :=
  guest [(["whereis"; "ifconfig"], "ifconfig:" ++ nl);
         (["whereis"; "ip"], "ip:" ++ nl)].

Definition machine (id name state os : string)
  (hw : gmap string (gmap string JValue)) : VM.t :=
  VM.Build id name "VM" state os "" "" (GuestTools.Build "" "") hw.

Definition net0 : gmap string JValue :=
  {[ "enabled" := JBool true; "mac" := JString "001C42C45C24";
     "type" := JString "bridged"; "iface" := JString "default" ]}.

(** An adapter declared without a MAC address. *)
Definition net0NoMac : gmap string JValue :=
  {[ "enabled" := JBool true; "type" := JString "bridged" ]}.

Definition vmLinux : VM.t :=
  machine "{1f2e}" "dev" "running" "linux" {[ "net0" := net0 ]}.

Definition vmStopped : VM.t :=
  machine "{77aa}" "old" "stopped" "linux" {[ "net0" := net0 ]}.

Definition vmWindows : VM.t :=
  machine "{90cd}" "win" "running" "win-10" {[ "net0" := net0 ]}.

Definition vmNoMac : VM.t :=
  machine "{1f2e}" "dev" "running" "linux" {[ "net0" := net0NoMac ]}.

(** Two lines of the menu as [main] formats them, of 47 and 50 bytes. *)
Definition menu : list string :=
  [" dev                 : 10.211.55.5     (shared)";
   " build               : 10.37.129.4     (host-only)"].

Definition menuBox : listBox := newListBox "Choose VM from parallels" menu.

Definition eth0 : LinuxIpAddr.t :=
  LinuxIpAddr.Build "eth0" "ether" "00:1c:42:c4:5c:24" "10.211.55.5"
    "10.211.55.255" "255.255.255.0".

Definition lo : LinuxIpAddr.t := LinuxIpAddr.Build "lo" "" "" "" "" "".

(** The identity stands in for [unicode.ToLower] where only ASCII strings
    are lower-cased. *)
Definition noUnicode : string -> string := fun s => s.

(** The order of a map's own enumeration, for every visit. *)
Definition inOrder (hw : gmap string (gmap string JValue)) : RangeOrder :=
  fun _ => map_to_list hw.

Example getIps_ifconfig :
  getIps guestIfconfig vmLinux =
  (([eth0; lo], None),
   [["exec"; "{1f2e}"; "whereis"; "ifconfig"]; ["exec"; "{1f2e}"; "ifconfig"]]).
Proof. vm_compute. reflexivity. Qed.

Example getIps_ip :
  getIps guestIp vmLinux =
  (([LinuxIpAddr.Build "lo" "loopback" "00:00:00:00:00:00" "" "" "";
     LinuxIpAddr.Build "eth0" "ether" "00:1c:42:c4:5c:24" "10.211.55.5"
       "10.211.55.255" "24"], None),
   [["exec"; "{1f2e}"; "whereis"; "ifconfig"]; ["exec"; "{1f2e}"; "whereis"; "ip"];
    ["exec"; "{1f2e}"; "ip"; "address"; "show"]]).
Proof. vm_compute. reflexivity. Qed.

Example getIps_neither :
  fst (getIps guestNeither vmLinux) = ([], Some errNoCommand).
Proof. vm_compute. reflexivity. Qed.

Example scanLines_crlf :
  Go.scanLines ("a" ++ String Go.carriageReturn nl ++ nl ++ "b") = ["a"; ""; "b"].
Proof. vm_compute. reflexivity. Qed.

Example beginLine_alias :
  FindStringSubmatch beginLinePattern "eth0:1: flags=4163<UP>" =
  ["1: flags=4163<UP>"; ""; "1"].
Proof. vm_compute. reflexivity. Qed.

Example encodeRune_e_acute :
  Go.encodeRune 233 = String (Go.byte 195) (String (Go.byte 169) EmptyString).
Proof. vm_compute. reflexivity. Qed.

Example showIpAddress_scenarioA :
  fst (showIpAddress noUnicode guestIfconfig vmLinux (inOrder (VM.Hardware vmLinux))) =
  Go.Returned ([IpAddr.Build eth0 vmLinux "net0" true "bridged"], None).
Proof. vm_compute. reflexivity. Qed.

(** * Properties *)

Local Open Scope list_scope.

(** ** Strings and slices *)

Lemma length_append (a b : string) :
  String.length (a ++ b)%string = (String.length a + String.length b)%nat.
Proof. induction a as [|c a IH]; simpl; [reflexivity | now rewrite IH]. Qed.

Lemma length_substring (n m : nat) (s : string) :
  (n + m <= String.length s)%nat -> String.length (substring n m s) = m.
Proof.
  revert n m. induction s as [|c s IH]; intros [|n] [|m] H; simpl in *;
    try reflexivity; try lia.
  - f_equal. apply (IH 0%nat). lia.
  - apply IH. lia.
  - apply IH. lia.
Qed.

Lemma length_mapBytes (f : ascii -> ascii) (s : string) :
  String.length (Go.mapBytes f s) = String.length s.
Proof. induction s as [|c s IH]; simpl; [reflexivity | now rewrite IH]. Qed.

Lemma len_nonneg (s : string) : 0 <= Go.len s.
Proof. unfold Go.len. lia. Qed.

Lemma ToLower_ascii (u : string -> string) (s : string) :
  Go.allBytes Go.isASCII s = true -> Go.ToLower u s = Go.mapBytes Go.lowerByte s.
Proof. intros H. unfold Go.ToLower. now rewrite H. Qed.

Lemma len_ToLower_ascii (u : string -> string) (s : string) :
  Go.allBytes Go.isASCII s = true -> Go.len (Go.ToLower u s) = Go.len s.
Proof.
  intros H. rewrite ToLower_ascii by assumption.
  unfold Go.len. now rewrite length_mapBytes.
Qed.

Lemma slice_in_range (s : string) (lo hi : Z) :
  0 <= lo -> lo <= hi -> hi <= Go.len s ->
  Go.slice s lo hi = Go.Returned (substring (Z.to_nat lo) (Z.to_nat (hi - lo)) s).
Proof.
  intros H1 H2 H3. unfold Go.slice.
  destruct (Z.leb_spec 0 lo); [|lia].
  destruct (Z.leb_spec lo hi); [|lia].
  destruct (Z.leb_spec hi (Go.len s)); [reflexivity|lia].
Qed.

Lemma slice_out_of_range (s : string) (lo hi : Z) :
  lo < 0 \/ hi < lo \/ Go.len s < hi ->
  Go.slice s lo hi = Go.Panicked (Go.SliceBoundsOutOfRange lo hi (String.length s)).
Proof.
  intros H. unfold Go.slice.
  destruct (Z.leb_spec 0 lo); simpl; [|reflexivity].
  destruct (Z.leb_spec lo hi); simpl; [|reflexivity].
  destruct (Z.leb_spec hi (Go.len s)); [lia|reflexivity].
Qed.

Lemma length_slice (s r : string) (lo hi : Z) :
  Go.slice s lo hi = Go.Returned r -> Go.len r = hi - lo.
Proof.
  unfold Go.slice.
  destruct (Z.leb_spec 0 lo); simpl; [|discriminate].
  destruct (Z.leb_spec lo hi); simpl; [|discriminate].
  destruct (Z.leb_spec hi (Go.len s)) as [Hs|]; [|discriminate].
  intros [= <-]. unfold Go.len in *. rewrite length_substring; lia.
Qed.

(** ** [compareMac] *)

Ltac unfold_bind := unfold mbind, outcome_bind, Go.bind.

Lemma normalizeMac_returns (u : string -> string) (prlMac : string) :
  Go.returns (normalizeMac u prlMac) = (10 <=? Go.len (Go.ToLower u prlMac)).
Proof.
  unfold normalizeMac, Go.sliceFrom.
  set (m := Go.ToLower u prlMac).
  destruct (Z.leb_spec 10 (Go.len m)) as [H|H].
  - rewrite !slice_in_range by lia. reflexivity.
  - destruct (Z.le_gt_cases 2 (Go.len m));
      [rewrite (slice_in_range m 0 2) by lia
      |rewrite (slice_out_of_range m 0 2) by lia; reflexivity].
    destruct (Z.le_gt_cases 4 (Go.len m));
      [rewrite (slice_in_range m 2 4) by lia
      |rewrite (slice_out_of_range m 2 4) by lia; reflexivity].
    destruct (Z.le_gt_cases 6 (Go.len m));
      [rewrite (slice_in_range m 4 6) by lia
      |rewrite (slice_out_of_range m 4 6) by lia; reflexivity].
    destruct (Z.le_gt_cases 8 (Go.len m));
      [rewrite (slice_in_range m 6 8) by lia
      |rewrite (slice_out_of_range m 6 8) by lia; reflexivity].
    rewrite (slice_out_of_range m 8 10) by lia. reflexivity.
Qed.

Lemma compareMac_returns (u : string -> string) (linuxMac prlMac : string) :
  Go.returns (compareMac u linuxMac prlMac) = Go.returns (normalizeMac u prlMac).
Proof. unfold compareMac. now destruct (normalizeMac u prlMac). Qed.

Lemma len_normalizeMac (u : string -> string) (prlMac r : string) :
  normalizeMac u prlMac = Go.Returned r ->
  Go.len r = Go.len (Go.ToLower u prlMac) + 5.
Proof.
  unfold normalizeMac, Go.sliceFrom.
  set (m := Go.ToLower u prlMac).
  destruct (Go.slice m 0 2) as [a|] eqn:Ha; [|discriminate].
  destruct (Go.slice m 2 4) as [b|] eqn:Hb; [|discriminate].
  destruct (Go.slice m 4 6) as [c|] eqn:Hc; [|discriminate].
  destruct (Go.slice m 6 8) as [d|] eqn:Hd; [|discriminate].
  destruct (Go.slice m 8 10) as [e|] eqn:He; [|discriminate].
  destruct (Go.slice m 10 (Go.len m)) as [f|] eqn:Hf; [|discriminate].
  apply length_slice in Ha, Hb, Hc, Hd, He, Hf.
  unfold_bind. intros [= <-]. unfold Go.len in *.
  rewrite !length_append. simpl String.length. lia.
Qed.

Lemma compareMac_true (u : string -> string) (linuxMac prlMac : string) :
  compareMac u linuxMac prlMac = Go.Returned true ->
  normalizeMac u prlMac = Go.Returned linuxMac.
Proof.
  unfold compareMac. destruct (normalizeMac u prlMac) as [m|]; [|discriminate].
  unfold_bind. intros [= H]. apply String.eqb_eq in H. now subst.
Qed.

Lemma ranges_singleton (dev : string) (params : gmap string JValue) (order : RangeOrder) :
  ranges {[ dev := params ]} order -> forall k, order k = [(dev, params)].
Proof.
  intros H k. specialize (H k). rewrite map_to_list_singleton in H.
  now apply Permutation_singleton_r in H.
Qed.

(** C2.  [compareMac] returns exactly when the lower-cased hypervisor MAC
    has at least 10 bytes (for an ASCII string, when the MAC itself has),
    and otherwise panics in the fixed-position slicing.  The panic is
    reachable through [showIpAddress]: for an enabled [net0] declared
    without a ["mac"] entry the correlation compares against the empty
    string and panics, in whatever order the hardware map is visited. *)
Theorem C2_compareMac_partial :
  (forall u linuxMac prlMac,
      Go.returns (compareMac u linuxMac prlMac) = true <->
      10 <= Go.len (Go.ToLower u prlMac))
  /\ (forall u prlMac,
        Go.allBytes Go.isASCII prlMac = true ->
        Go.len (Go.ToLower u prlMac) = Go.len prlMac)
  /\ (forall u order,
        ranges (VM.Hardware vmNoMac) order ->
        fst (showIpAddress u guestIfconfig vmNoMac order) =
        Go.Panicked (Go.SliceBoundsOutOfRange 0 2 0)).
Proof.
  split; [|split].
  - intros u linuxMac prlMac.
    rewrite compareMac_returns, normalizeMac_returns. apply Z.leb_le.
  - apply len_ToLower_ascii.
  - intros u order Hord.
    pose proof (ranges_singleton _ _ _ Hord 0%nat) as H0.
    unfold showIpAddress.
    replace (getIps guestIfconfig vmNoMac) with
      (([eth0; lo], @None error),
       [["exec"; "{1f2e}"; "whereis"; "ifconfig"]; ["exec"; "{1f2e}"; "ifconfig"]])
      by (vm_compute; reflexivity).
    change (negb (VM.State vmNoMac =? "running")%string) with false.
    change ((VM.OS vmNoMac =? "linux")%string || (VM.OS vmNoMac =? "ubuntu")%string)
      with true.
    cbn [fst negb]. unfold correlate at 1. rewrite H0.
    reflexivity.
Qed.

(** ** MAC normalisation *)

(** ['a' <= c && c <= 'z'] then [c -= 'a' - 'A']: the upper-case
    counterpart of [Go.lowerByte], to state that case does not matter. *)
Definition upperByte (c : ascii) : ascii :=
  if Go.byteIn "a" "z" c then ascii_of_nat (nat_of_ascii c - 32) else c.

Lemma lowerByte_upperByte (c : ascii) : Go.lowerByte (upperByte c) = Go.lowerByte c.
Proof. destruct c as [[] [] [] [] [] [] [] []]; reflexivity. Qed.

Lemma lowerByte_lowerByte (c : ascii) : Go.lowerByte (Go.lowerByte c) = Go.lowerByte c.
Proof. destruct c as [[] [] [] [] [] [] [] []]; reflexivity. Qed.

Lemma isASCII_upperByte (c : ascii) : Go.isASCII (upperByte c) = Go.isASCII c.
Proof. destruct c as [[] [] [] [] [] [] [] []]; reflexivity. Qed.

Lemma isASCII_lowerByte (c : ascii) : Go.isASCII (Go.lowerByte c) = Go.isASCII c.
Proof. destruct c as [[] [] [] [] [] [] [] []]; reflexivity. Qed.

Lemma allBytes_mapBytes (p : ascii -> bool) (f : ascii -> ascii) (s : string) :
  (forall c, p (f c) = p c) ->
  Go.allBytes p (Go.mapBytes f s) = Go.allBytes p s.
Proof. intros H. induction s as [|c s IH]; simpl; [reflexivity | now rewrite H, IH]. Qed.

Lemma mapBytes_mapBytes (f g h : ascii -> ascii) (s : string) :
  (forall c, f (g c) = h c) ->
  Go.mapBytes f (Go.mapBytes g s) = Go.mapBytes h s.
Proof. intros H. induction s as [|c s IH]; simpl; [reflexivity | now rewrite H, IH]. Qed.

Lemma ToLower_changeCase (u : string -> string) (f : ascii -> ascii) (s : string) :
  (forall c, Go.isASCII (f c) = Go.isASCII c) ->
  (forall c, Go.lowerByte (f c) = Go.lowerByte c) ->
  Go.allBytes Go.isASCII s = true ->
  Go.ToLower u (Go.mapBytes f s) = Go.ToLower u s.
Proof.
  intros Hf Hl Hs. unfold Go.ToLower.
  rewrite allBytes_mapBytes by assumption. rewrite Hs.
  now apply mapBytes_mapBytes.
Qed.

(** C5, as the code has it.  The normalisation inside [compareMac] does
    not depend on the case of the letters: an ASCII MAC, the same MAC in
    upper case and the same MAC in lower case are normalised alike, and
    "AA11BB22CC33" becomes "aa:11:bb:22:cc:33".  It is not idempotent: the
    result always has five colons more than the (lower-cased) input, so
    for an ASCII input it is never the input itself. *)
Theorem C5_normalizeMac_case_insensitive (u : string -> string) (prlMac : string)
  (Hascii : Go.allBytes Go.isASCII prlMac = true) :
  normalizeMac u (Go.mapBytes upperByte prlMac) = normalizeMac u prlMac
  /\ normalizeMac u (Go.mapBytes Go.lowerByte prlMac) = normalizeMac u prlMac
  /\ normalizeMac u "AA11BB22CC33" = Go.Returned "aa:11:bb:22:cc:33"
  /\ (forall r, normalizeMac u prlMac = Go.Returned r ->
             Go.len r = Go.len prlMac + 5 /\ r <> prlMac).
Proof.
  split; [|split; [|split]].
  - unfold normalizeMac.
    now rewrite (ToLower_changeCase u upperByte)
      by auto using isASCII_upperByte, lowerByte_upperByte.
  - unfold normalizeMac.
    now rewrite (ToLower_changeCase u Go.lowerByte)
      by auto using isASCII_lowerByte, lowerByte_lowerByte.
  - reflexivity.
  - intros r Hr. apply len_normalizeMac in Hr.
    rewrite len_ToLower_ascii in Hr by assumption.
    split; [assumption|]. intros ->. lia.
Qed.

Lemma C5_normalizeMac_case_insensitive_witness :
  Go.allBytes Go.isASCII "Aa11bB22Cc33" = true
  /\ normalizeMac noUnicode (Go.mapBytes upperByte "Aa11bB22Cc33") =
     normalizeMac noUnicode "Aa11bB22Cc33".
Proof.
  split; [reflexivity|].
  exact (proj1 (C5_normalizeMac_case_insensitive noUnicode "Aa11bB22Cc33" eq_refl)).
Defined.

(** C5, as the specification has it, fails: the normal form of
    "AA11BB22CC33" is not normalised to itself. *)
Lemma C5_not_idempotent :
  exists v,
    normalizeMac noUnicode "AA11BB22CC33" = Go.Returned v
    /\ normalizeMac noUnicode v <> Go.Returned v.
Proof.
  exists "aa:11:bb:22:cc:33". split; [reflexivity|].
  vm_compute. discriminate.
Qed.

(** ** [getIps]: which command is used *)

Definition cmdline (vm : VM.t) (args : list string) : list string :=
  "exec" :: VM.ID vm :: args.

Lemma testCommandExists_log (prlctl : Prlctl) (vm : VM.t) (cmd : string) :
  snd (testCommandExists prlctl vm cmd) = [cmdline vm ["whereis"; cmd]].
Proof.
  unfold testCommandExists, exec. simpl.
  destruct (prlctl _) as [output [e|]]; reflexivity.
Qed.

(** C3, as the code has it.  The probes run in a fixed order with
    [ifconfig] (the legacy listing) first.  When [ifconfig] is found, it
    alone is run and [ip] is neither probed nor run; when it is not found
    and [ip] is, [ip address show] alone is run; when neither is found, no
    listing command is run and the result is no record and the error
    "No command to get ip address". *)
Theorem C3_probe_order (prlctl : Prlctl) (vm : VM.t) :
  (fst (testCommandExists prlctl vm "ifconfig") = true ->
   getIps prlctl vm =
   (parseOutput true (fst (prlctl (cmdline vm ["ifconfig"])))
      (snd (prlctl (cmdline vm ["ifconfig"]))),
    [cmdline vm ["whereis"; "ifconfig"]; cmdline vm ["ifconfig"]]))
  /\ (fst (testCommandExists prlctl vm "ifconfig") = false ->
      fst (testCommandExists prlctl vm "ip") = true ->
      getIps prlctl vm =
      (parseOutput false (fst (prlctl (cmdline vm ["ip"; "address"; "show"])))
         (snd (prlctl (cmdline vm ["ip"; "address"; "show"]))),
       [cmdline vm ["whereis"; "ifconfig"]; cmdline vm ["whereis"; "ip"];
        cmdline vm ["ip"; "address"; "show"]]))
  /\ (fst (testCommandExists prlctl vm "ifconfig") = false ->
      fst (testCommandExists prlctl vm "ip") = false ->
      getIps prlctl vm =
      (([], Some errNoCommand),
       [cmdline vm ["whereis"; "ifconfig"]; cmdline vm ["whereis"; "ip"]])).
Proof.
  pose proof (testCommandExists_log prlctl vm "ifconfig") as L1.
  pose proof (testCommandExists_log prlctl vm "ip") as L2.
  unfold getIps, exec.
  destruct (testCommandExists prlctl vm "ifconfig") as [b1 log1].
  destruct (testCommandExists prlctl vm "ip") as [b2 log2].
  simpl in L1, L2. subst log1 log2. fold (cmdline vm ["ifconfig"]).
  fold (cmdline vm ["ip"; "address"; "show"]).
  repeat split; simpl; intros; subst; try discriminate.
  - now destruct (prlctl (cmdline vm ["ifconfig"])).
  - now destruct (prlctl (cmdline vm ["ip"; "address"; "show"])).
  - reflexivity.
Qed.

(** C3, as the specification has it, fails: on a guest that has both
    commands the first probe is for [ifconfig], the listing is read with
    [ifconfig], and [ip address show] is not run although its probe would
    succeed. *)
Lemma C3_modern_not_first :
  fst (testCommandExists guestBoth vmLinux "ip") = true
  /\ head (snd (getIps guestBoth vmLinux)) = Some (cmdline vmLinux ["whereis"; "ifconfig"])
  /\ (cmdline vmLinux ["ip"; "address"; "show"] ∉ snd (getIps guestBoth vmLinux))
  /\ fst (getIps guestBoth vmLinux) = (assemble true sampleIfconfig, None).
Proof.
  split; [vm_compute; reflexivity|].
  split; [vm_compute; reflexivity|].
  split; [|vm_compute; reflexivity].
  replace (snd (getIps guestBoth vmLinux)) with
    [cmdline vmLinux ["whereis"; "ifconfig"]; cmdline vmLinux ["ifconfig"]]
    by (vm_compute; reflexivity).
  intros H. apply elem_of_cons in H as [H|H]; [discriminate|].
  apply elem_of_cons in H as [H|H]; [discriminate|].
  now apply elem_of_nil in H.
Qed.

(** ** [getIps]: the records assembled *)

(** An indented line: it starts with a blank or a tab. *)
Definition indented (s : string) : bool :=
  match s with
  | EmptyString => false
  | String c _ => Ascii.eqb c " " || Ascii.eqb c Go.tab
  end.

(** The listing as the specification reads it: the indented lines in front
    of the first interface line, and then each interface line with the
    indented lines that follow it up to the next interface line. *)
Fixpoint blocks (lines : list string) : list string * list (string * list string) :=
  match lines with
  | [] => ([], [])
  | l :: rest =>
      let '(pre, bs) := blocks rest in
      if opensRecord l then ([], (l, pre) :: bs)
      else if indented l then (l :: pre, bs)
      else (pre, bs)
  end.

(** The record of one block: the name from the interface line and the
    fields of the indented lines, read in order. *)
Definition recordOf (isIfconfig : bool) (b : string * list string) : LinuxIpAddr.t :=
  fold_left (infoLine isIfconfig) (snd b) (newRecord (fst b)).

Lemma scanStep_opens (f : bool) (st : Assembler) (s : string) :
  opensRecord s = true ->
  scanStep f st s = MkAssembler (Some (newRecord s)) (flush st).
Proof.
  destruct s as [|c s]; [discriminate|]. simpl. now intros ->.
Qed.

Lemma scanStep_indented (f : bool) (st : Assembler) (s : string) :
  indented s = true ->
  scanStep f st s =
  match current st with
  | Some ip => MkAssembler (Some (infoLine f ip s)) (ips st)
  | None => st
  end.
Proof.
  destruct s as [|c s]; [discriminate|]. simpl. intros H.
  destruct (Ascii.eqb c " "), (Ascii.eqb c Go.tab); simpl in *;
    try reflexivity; discriminate.
Qed.

Lemma scanStep_blank (f : bool) (st : Assembler) (s : string) :
  opensRecord s = false -> indented s = false -> scanStep f st s = st.
Proof.
  destruct s as [|c s]; [reflexivity|]. simpl.
  destruct (Ascii.eqb c " "), (Ascii.eqb c Go.tab); simpl; intros; discriminate.
Qed.

Lemma opensRecord_not_indented (s : string) :
  opensRecord s = true -> indented s = false.
Proof.
  destruct s as [|c s]; [discriminate|]. simpl.
  destruct (Ascii.eqb c " "), (Ascii.eqb c Go.tab); simpl; intros; congruence.
Qed.

(** The single pass, started in any state, against the blocks. *)
Lemma flush_scan (f : bool) (lines : list string) (st : Assembler) :
  flush (fold_left (scanStep f) lines st) =
  (match current st with
   | Some ip => ips st ++ [fold_left (infoLine f) (fst (blocks lines)) ip]
   | None => ips st
   end ++ map (recordOf f) (snd (blocks lines)))%list.
Proof.
  revert st. induction lines as [|l rest IH]; intros st.
  - simpl. unfold flush. destruct (current st); now rewrite app_nil_r.
  - cbn [fold_left blocks]. rewrite IH. clear IH.
    destruct (blocks rest) as [pre bs]. cbn [fst snd].
    destruct (opensRecord l) eqn:Ho.
    + rewrite scanStep_opens by assumption. cbn [current ips fst snd map].
      unfold recordOf at 2. cbn [fst snd fold_left]. unfold flush.
      destruct (current st); now rewrite <- ?app_assoc.
    + destruct (indented l) eqn:Hi.
      * rewrite scanStep_indented by assumption. cbn [fst snd].
        destruct (current st) eqn:Hc; cbn [current ips fold_left];
          now rewrite ?Hc.
      * rewrite scanStep_blank by assumption. reflexivity.
Qed.

Lemma length_blocks (lines : list string) :
  length (snd (blocks lines)) = length (filter (fun l => opensRecord l = true) lines).
Proof.
  induction lines as [|l rest IH]; [reflexivity|].
  cbn [blocks]. destruct (blocks rest) as [pre bs]. cbn [snd] in IH.
  rewrite filter_cons. destruct (opensRecord l) eqn:Ho.
  - rewrite decide_True by reflexivity. simpl. now rewrite IH.
  - rewrite decide_False by discriminate. now destruct (indented l).
Qed.

Lemma fittingTokens_all (ls : list string) :
  Forall (fun l => Go.len l < Go.MaxScanTokenSize) ls -> Go.fittingTokens ls = ls.
Proof.
  induction 1 as [|l ls Hl _ IH]; [reflexivity|]. simpl.
  destruct (Z.ltb_spec (Go.len l) Go.MaxScanTokenSize); [now rewrite IH | lia].
Qed.

(** What one indented line says, in the words of the specification: an
    address (ip, mask, broadcast), a link (type, MAC), or nothing. *)
Definition inetInfo (isIfconfig : bool) (s : string) : option (string * string * string) :=
  let m := FindStringSubmatch (if isIfconfig then inetLinePattern2 else inetLinePattern) s in
  if (0 <? length m)%nat then Some (sub m 1, sub m 2, sub m 3) else None.

Definition linkInfo (isIfconfig : bool) (s : string) : option (string * string) :=
  match inetInfo isIfconfig s with
  | Some _ => None
  | None =>
      if isIfconfig then
        let m := FindStringSubmatch etherLinkPattern s in
        if (0 <? length m)%nat then Some ("ether", sub m 1) else None
      else
        let m := FindStringSubmatch linkLinePattern s in
        if (0 <? length m)%nat then Some (sub m 1, sub m 2) else None
  end.

(** The record [ip] once the last address line [i] and the last link line
    [k] of its block, if any, are taken over. *)
Definition withInfo (ip : LinuxIpAddr.t)
  (i : option (string * string * string)) (k : option (string * string)) : LinuxIpAddr.t :=
  LinuxIpAddr.Build (LinuxIpAddr.IfName ip)
    (from_option fst (LinuxIpAddr.LinkType ip) k)
    (from_option snd (LinuxIpAddr.Mac ip) k)
    (from_option (fun x => fst (fst x)) (LinuxIpAddr.Ip ip) i)
    (from_option snd (LinuxIpAddr.Broadcast ip) i)
    (from_option (fun x => snd (fst x)) (LinuxIpAddr.Mask ip) i).

Lemma infoLine_info (f : bool) (ip : LinuxIpAddr.t) (s : string) :
  infoLine f ip s = withInfo ip (inetInfo f s) (linkInfo f s).
Proof.
  unfold infoLine, linkInfo, inetInfo, withInfo, setInet, setLink.
  destruct ip, f; cbn [from_option fst snd LinuxIpAddr.IfName LinuxIpAddr.LinkType
    LinuxIpAddr.Mac LinuxIpAddr.Ip LinuxIpAddr.Broadcast LinuxIpAddr.Mask];
    repeat match goal with
           | |- context [if ?c then _ else _] => destruct c
           end; reflexivity.
Qed.

Lemma withInfo_withInfo (ip : LinuxIpAddr.t) i k i' k' :
  withInfo (withInfo ip i k) i' k' =
  withInfo ip (match i' with Some _ => i' | None => i end)
              (match k' with Some _ => k' | None => k end).
Proof. destruct ip, i, k, i', k'; reflexivity. Qed.

Lemma last_omap_snoc {A B} (g : A -> option B) (l : list A) (x : A) :
  last (omap g (l ++ [x])) =
  match g x with Some y => Some y | None => last (omap g l) end.
Proof.
  rewrite omap_app. simpl. destruct (g x) as [y|].
  - apply last_snoc.
  - now rewrite app_nil_r.
Qed.

(** The fields of a record after the indented lines of its block: those of
    the last address line and of the last link line. *)
Lemma fold_infoLine (f : bool) (lines : list string) (ip : LinuxIpAddr.t) :
  fold_left (infoLine f) lines ip =
  withInfo ip (last (omap (inetInfo f) lines)) (last (omap (linkInfo f) lines)).
Proof.
  induction lines as [|l lines IH] using rev_ind.
  - now destruct ip.
  - rewrite fold_left_app. cbn [fold_left]. rewrite IH, infoLine_info.
    rewrite withInfo_withInfo, !last_omap_snoc.
    now destruct (inetInfo f l), (linkInfo f l).
Qed.

(** C6.  The listing is read line by line as [bufio.Scanner] delivers it
    (every line, when none reaches the scanner's 64 KiB token limit).  The
    single pass of [getIps] over an [ip address show] listing yields one
    record per line that opens an interface, in order; each record has the
    name taken from its opening line and the fields of the last address
    line and the last link line among the indented lines up to the next
    opening line or the end of the listing.  Indented lines in front of
    the first opening line go into no record, and the record being filled
    at the end of the listing is part of the result. *)
Theorem C6_one_record_per_interface (output : string) :
  let lines := Go.scanLines output in
  assemble false output = map (recordOf false) (snd (blocks lines))
  /\ length (assemble false output) =
     length (filter (fun l => opensRecord l = true) lines)
  /\ (forall opening body,
        recordOf false (opening, body) =
        withInfo (newRecord opening)
          (last (omap (inetInfo false) body)) (last (omap (linkInfo false) body)))
  /\ (forall pre l rest,
        Forall (fun s => opensRecord s = false) pre -> opensRecord l = true ->
        snd (blocks (pre ++ l :: rest)) = snd (blocks (l :: rest)))
  /\ (forall l body rest,
        Forall (fun s => indented s = true) body ->
        match rest with [] => True | l' :: _ => opensRecord l' = true end ->
        opensRecord l = true ->
        snd (blocks (l :: body ++ rest)) = (l, body) :: snd (blocks rest))
  /\ (Forall (fun l => Go.len l < Go.MaxScanTokenSize) (Go.rawLines output) ->
      lines = map Go.dropCR (Go.rawLines output)).
Proof.
  intros lines. split; [|split; [|split; [|split; [|split]]]].
  - unfold assemble. fold lines. rewrite flush_scan. reflexivity.
  - unfold assemble. fold lines. rewrite flush_scan. cbn [current ips app].
    rewrite length_map. apply length_blocks.
  - intros opening body. unfold recordOf. cbn [fst snd]. apply fold_infoLine.
  - intros pre l rest Hpre Hl. induction Hpre as [|p pre Hp _ IH]; [reflexivity|].
    cbn [app blocks]. cbn [blocks] in IH. rewrite Hl in IH.
    destruct (blocks (pre ++ l :: rest)) as [pre' bs'].
    destruct (blocks rest) as [pre0 bs0]. cbn [snd] in IH. subst bs'.
    rewrite Hp. rewrite Hl. now destruct (indented p).
  - intros l body rest Hbody Hrest Hl. cbn [blocks].
    assert (Hb : blocks (body ++ rest) = (body, snd (blocks rest))).
    { induction Hbody as [|b body Hb _ IH].
      - destruct rest as [|l' rest']; [reflexivity|].
        cbn [app blocks]. destruct (blocks rest'). now rewrite Hrest.
      - cbn [app blocks]. rewrite IH, Hb.
        destruct (opensRecord b) eqn:Ho; [|reflexivity].
        apply opensRecord_not_indented in Ho. congruence. }
    rewrite Hb, Hl. reflexivity.
  - intros Hfit. unfold lines, Go.scanLines. now rewrite fittingTokens_all.
Qed.

(** ** Correlation *)

(** The entry [a] stands for an adapter that [vm] declares under a key
    with the prefix "net", that is enabled, and whose normalised MAC is
    the MAC of the entry's record. *)
Definition resolves (u : string -> string) (vm : VM.t) (a : IpAddr.t) : Prop :=
  IpAddr.VM a = vm
  /\ Go.HasPrefix (IpAddr.Name a) "net" = true
  /\ exists params,
       VM.Hardware vm !! IpAddr.Name a = Some params
       /\ isTrue (params !! "enabled") = true
       /\ normalizeMac u (asString (params !! "mac")) =
          Go.Returned (LinuxIpAddr.Mac (IpAddr.IP a)).

Lemma matchAdapter_Some u vm ip visit a :
  matchAdapter u vm ip visit = Go.Returned (Some a) ->
  IpAddr.IP a = ip /\ IpAddr.VM a = vm
  /\ Go.HasPrefix (IpAddr.Name a) "net" = true
  /\ exists params,
       (IpAddr.Name a, params) ∈ visit
       /\ isTrue (params !! "enabled") = true
       /\ normalizeMac u (asString (params !! "mac")) = Go.Returned (LinuxIpAddr.Mac ip).
Proof.
  induction visit as [|[dev params] rest IH]; [discriminate|].
  cbn [matchAdapter].
  destruct (Go.HasPrefix dev "net") eqn:Hp;
    [|intros H; apply IH in H; destruct H as (?&?&?&q&?&?); repeat split; auto;
      exists q; rewrite elem_of_cons; auto].
  destruct (isTrue (params !! "enabled")) eqn:He;
    [|intros H; apply IH in H; destruct H as (?&?&?&q&?&?); repeat split; auto;
      exists q; rewrite elem_of_cons; auto].
  destruct (compareMac u (LinuxIpAddr.Mac ip) (asString (params !! "mac")))
    as [[|]|] eqn:Hc; unfold_bind; [| |discriminate].
  - intros [= <-]. cbn. repeat split; auto.
    exists params. rewrite elem_of_cons. repeat split; auto.
    now apply compareMac_true.
  - intros H; apply IH in H; destruct H as (?&?&?&q&?&?); repeat split; auto.
    exists q; rewrite elem_of_cons; auto.
Qed.

Lemma ranges_lookup hw (order : RangeOrder) k dev params :
  ranges hw order -> (dev, params) ∈ order k -> hw !! dev = Some params.
Proof.
  intros H Hin. rewrite (H k) in Hin. now apply elem_of_map_to_list in Hin.
Qed.

(** What the outer loop adds to [addrs]: at most one entry per record, in
    the order of the records, each for a matching adapter. *)
Lemma correlate_adds u vm order k ips addrs res :
  ranges (VM.Hardware vm) order ->
  correlate u vm order k ips addrs = Go.Returned res ->
  exists new,
    res = addrs ++ new
    /\ sublist (map IpAddr.IP new) ips
    /\ Forall (resolves u vm) new.
Proof.
  intros Hord. revert k addrs. induction ips as [|ip ips IH]; intros k addrs.
  - intros [= <-]. exists []. rewrite app_nil_r. repeat constructor.
  - cbn [correlate].
    destruct (matchAdapter u vm ip (order k)) as [found|] eqn:Hm; [|discriminate].
    unfold_bind. intros H. apply IH in H as (new & -> & Hsub & Hall).
    destruct found as [a|].
    + apply matchAdapter_Some in Hm as (Hip & Hvm & Hp & params & Hin & He & Hn).
      exists (a :: new). rewrite <- app_assoc. split; [reflexivity|].
      split.
      * cbn [map]. rewrite Hip. now constructor.
      * constructor; [|assumption]. repeat split; auto.
        exists params. rewrite Hip. eauto using ranges_lookup.
    + exists new. split; [reflexivity|]. split; [now constructor|assumption].
Qed.

Lemma resolves_same_key u vm a b :
  resolves u vm a -> resolves u vm b -> IpAddr.Name a = IpAddr.Name b ->
  LinuxIpAddr.Mac (IpAddr.IP a) = LinuxIpAddr.Mac (IpAddr.IP b).
Proof.
  intros (_ & _ & pa & Ha & _ & Na) (_ & _ & pb & Hb & _ & Nb) Heq.
  rewrite Heq in Ha. rewrite Ha in Hb. injection Hb as ->. congruence.
Qed.

Lemma NoDup_map_through {A B C} (f : A -> B) (g : A -> C) (l : list A) :
  (forall a b, a ∈ l -> b ∈ l -> g a = g b -> f a = f b) ->
  NoDup (map f l) -> NoDup (map g l).
Proof.
  induction l as [|x l IH]; intros Hfg Hnd; [constructor|].
  cbn [map] in *. apply NoDup_cons in Hnd as [Hx Hnd].
  apply NoDup_cons. split.
  - intros Hin. apply Hx. apply list_elem_of_fmap in Hin as (y & Hy & Hyl).
    apply list_elem_of_fmap. exists y. split; [|assumption].
    apply Hfg; [apply elem_of_cons; now left | apply elem_of_cons; now right | assumption].
  - apply IH; [|assumption]. intros a b Ha Hb.
    apply Hfg; apply elem_of_cons; now right.
Qed.

(** C7, as the code has it.  Every entry [showIpAddress] returns stands
    for an adapter of the machine that is enabled, has a key with the
    prefix "net" and has the MAC of the entry's record.  Each record gives
    at most one entry, in the order of the records.  Two entries name the
    same adapter key only if their records have the same MAC; so when the
    records have pairwise different MACs no adapter key occurs twice. *)
Theorem C7_correlation (u : string -> string) (prlctl : Prlctl) (vm : VM.t)
  (order : RangeOrder) (addrs : list IpAddr.t) (err : option error)
  (Hord : ranges (VM.Hardware vm) order)
  (Hres : fst (showIpAddress u prlctl vm order) = Go.Returned (addrs, err)) :
  Forall (resolves u vm) addrs
  /\ sublist (map IpAddr.IP addrs) (fst (fst (getIps prlctl vm)))
  /\ (forall a b, a ∈ addrs -> b ∈ addrs -> IpAddr.Name a = IpAddr.Name b ->
              LinuxIpAddr.Mac (IpAddr.IP a) = LinuxIpAddr.Mac (IpAddr.IP b))
  /\ (NoDup (map LinuxIpAddr.Mac (fst (fst (getIps prlctl vm)))) ->
      NoDup (map IpAddr.Name addrs)).
Proof.
  assert (H : Forall (resolves u vm) addrs
              /\ sublist (map IpAddr.IP addrs) (fst (fst (getIps prlctl vm)))).
  { revert Hres. unfold showIpAddress.
    destruct (negb _); [intros [= <- <-]; split; [constructor|apply sublist_nil_l]|].
    destruct (_ || _); [|intros [= <- <-]; split; [constructor|apply sublist_nil_l]].
    destruct (getIps prlctl vm) as [[ips [e|]] log]; cbn [fst];
      [intros [= <- <-]; split; [constructor|apply sublist_nil_l]|].
    destruct (correlate u vm order 0 ips []) as [res|] eqn:Hc; [|discriminate].
    unfold_bind. intros [= <- <-].
    apply correlate_adds in Hc as (new & -> & Hsub & Hall); auto. }
  destruct H as [Hall Hsub].
  assert (Hkey : forall a b, a ∈ addrs -> b ∈ addrs -> IpAddr.Name a = IpAddr.Name b ->
                 LinuxIpAddr.Mac (IpAddr.IP a) = LinuxIpAddr.Mac (IpAddr.IP b)).
  { intros a b Ha Hb. rewrite Forall_forall in Hall.
    eapply resolves_same_key; apply Hall; assumption. }
  repeat split; try assumption.
  intros Hnd.
  apply (NoDup_map_through (fun a => LinuxIpAddr.Mac (IpAddr.IP a))); [assumption|].
  rewrite <- (map_map IpAddr.IP LinuxIpAddr.Mac).
  apply (sublist_NoDup _ _ Hnd).
  now apply (fmap_sublist LinuxIpAddr.Mac).
Qed.

Lemma C7_correlation_witness :
  Forall (resolves noUnicode vmLinux) [IpAddr.Build eth0 vmLinux "net0" true "bridged"].
Proof.
  refine (proj1 (C7_correlation noUnicode guestIfconfig vmLinux
                   (inOrder (VM.Hardware vmLinux)) _ None _ _)).
  - intros k. reflexivity.
  - vm_compute. reflexivity.
Defined.

(** C7, as the specification has it, fails: the two interfaces of the
    guest with an alias share their MAC, and both are resolved to the
    adapter [net0] of the one machine. *)
Lemma C7_same_adapter_twice :
  exists a b,
    fst (showIpAddress noUnicode guestAlias vmLinux (inOrder (VM.Hardware vmLinux))) =
    Go.Returned ([a; b], None)
    /\ a <> b
    /\ IpAddr.VM a = IpAddr.VM b
    /\ IpAddr.Name a = "net0" /\ IpAddr.Name b = "net0".
Proof.
  eexists _, _. split; [vm_compute; reflexivity|].
  split; [discriminate|]. repeat split.
Qed.

(** ** Machines that are passed over *)

Lemma showIpAddress_not_running u prlctl vm order :
  VM.State vm <> "running" ->
  showIpAddress u prlctl vm order = (Go.Returned ([], Some (errNotRunning vm)), []).
Proof.
  intros H. unfold showIpAddress.
  apply String.eqb_neq in H. now rewrite H.
Qed.

Lemma showIpAddress_not_supported u prlctl vm order :
  VM.State vm = "running" -> VM.OS vm <> "linux" -> VM.OS vm <> "ubuntu" ->
  showIpAddress u prlctl vm order = (Go.Returned ([], Some (errNotSupported vm)), []).
Proof.
  intros Hr H1 H2. unfold showIpAddress.
  apply String.eqb_eq in Hr. apply String.eqb_neq in H1, H2.
  now rewrite Hr, H1, H2.
Qed.

Lemma collect_skip u prlctl vm order e rest acc :
  showIpAddress u prlctl vm order = (Go.Returned ([], Some e), []) ->
  collect u prlctl ((vm, order) :: rest) acc = collect u prlctl rest acc.
Proof.
  intros H. cbn [collect]. rewrite H.
  destruct (collect u prlctl rest acc) as [r log]. reflexivity.
Qed.

(** C10.  A machine that is not running, or whose guest system is neither
    "linux" nor "ubuntu", gets no entry and an error from [showIpAddress],
    and no command is run on it.  The loop of [main] passes it over: with
    or without that machine in the list, the addresses collected from the
    other machines (and the commands run on them) are the same. *)
Theorem C10_skipped_machine (u : string -> string) (prlctl : Prlctl) (vm : VM.t)
  (order : RangeOrder)
  (Hskip : VM.State vm <> "running" \/ (VM.OS vm <> "linux" /\ VM.OS vm <> "ubuntu")) :
  (exists e, showIpAddress u prlctl vm order = (Go.Returned ([], Some e), []))
  /\ (forall before after acc,
        collect u prlctl (before ++ (vm, order) :: after) acc =
        collect u prlctl (before ++ after) acc).
Proof.
  assert (H : exists e, showIpAddress u prlctl vm order = (Go.Returned ([], Some e), [])).
  { destruct (String.eqb_spec (VM.State vm) "running") as [Hr|Hr].
    - destruct Hskip as [Hs|[H1 H2]]; [contradiction|].
      eexists. now apply showIpAddress_not_supported.
    - eexists. now apply showIpAddress_not_running. }
  split; [assumption|]. destruct H as [e He].
  intros before after. induction before as [|[vm' order'] before IH]; intros acc.
  - cbn [app]. now apply (collect_skip _ _ _ _ e).
  - cbn [app collect].
    destruct (showIpAddress u prlctl vm' order') as [[[ips err]|p] log];
      [|reflexivity].
    now rewrite IH.
Qed.

Lemma C10_skipped_machine_witness :
  collect noUnicode guestIfconfig
    [(vmStopped, inOrder (VM.Hardware vmStopped));
     (vmLinux, inOrder (VM.Hardware vmLinux))] [] =
  collect noUnicode guestIfconfig [(vmLinux, inOrder (VM.Hardware vmLinux))] [].
Proof.
  refine (proj2 (C10_skipped_machine noUnicode guestIfconfig vmStopped
                   (inOrder (VM.Hardware vmStopped)) _) [] _ []).
  left. discriminate.
Defined.

Example collect_three :
  fst (collect noUnicode guestIfconfig
         [(vmStopped, inOrder (VM.Hardware vmStopped));
          (vmWindows, inOrder (VM.Hardware vmWindows));
          (vmLinux, inOrder (VM.Hardware vmLinux))] []) =
  Go.Returned [IpAddr.Build eth0 vmLinux "net0" true "bridged"].
Proof. vm_compute. reflexivity. Qed.

(** ** The list box *)

Lemma wrap_small (z : Z) : Go.minInt <= z <= Go.maxInt -> Go.wrap z = z.
Proof.
  unfold Go.wrap, Go.minInt, Go.maxInt. intros H.
  rewrite Z.mod_small; lia.
Qed.

Lemma drawContent_selectIndex tw th lb :
  selectIndex (fst (drawContent tw th lb)) = selectIndex lb.
Proof. unfold drawContent. now destruct (content lb). Qed.

Lemma drawContent_content tw th lb :
  content (fst (drawContent tw th lb)) = content lb.
Proof. unfold drawContent. now destruct (content lb) eqn:E. Qed.

(** The list box has a selection inside its content, and its content is
    a Go slice (its length is an [int]). *)
Definition selectionValid (lb : listBox) : Prop :=
  lenContent lb <= Go.maxInt /\ 0 <= selectIndex lb < lenContent lb.

Lemma lenContent_ext lb lb' :
  content lb' = content lb -> lenContent lb' = lenContent lb.
Proof. unfold lenContent. now intros ->. Qed.

Lemma moveUp_content tw th lb : content (moveUp tw th lb) = content lb.
Proof.
  unfold moveUp. destruct (0 <? selectIndex lb); [|reflexivity].
  now rewrite drawContent_content.
Qed.

Lemma moveDown_content tw th lb : content (moveDown tw th lb) = content lb.
Proof.
  unfold moveDown. destruct (_ <? _); [|reflexivity].
  now rewrite drawContent_content.
Qed.

Lemma moveUp_selectIndex tw th lb :
  selectionValid lb ->
  selectIndex (moveUp tw th lb) = Z.max 0 (selectIndex lb - 1).
Proof.
  intros [Hlen Hsel]. unfold moveUp.
  destruct (Z.ltb_spec 0 (selectIndex lb)); [|lia].
  rewrite drawContent_selectIndex. cbn [selectIndex setSelectIndex].
  unfold Go.sub. rewrite wrap_small; unfold Go.minInt, Go.maxInt in *; lia.
Qed.

Lemma moveDown_selectIndex tw th lb :
  selectionValid lb ->
  selectIndex (moveDown tw th lb) = Z.min (lenContent lb - 1) (selectIndex lb + 1).
Proof.
  intros [Hlen Hsel]. unfold moveDown, Go.sub.
  rewrite (wrap_small (lenContent lb - 1)) by (unfold Go.minInt, Go.maxInt in *; lia).
  destruct (Z.ltb_spec (selectIndex lb) (lenContent lb - 1)); [|lia].
  rewrite drawContent_selectIndex. cbn [selectIndex setSelectIndex].
  unfold Go.add. rewrite wrap_small; unfold Go.minInt, Go.maxInt in *; lia.
Qed.

Lemma selectionValid_ext lb lb' :
  content lb' = content lb -> selectIndex lb' = selectIndex lb ->
  selectionValid lb -> selectionValid lb'.
Proof. unfold selectionValid, lenContent. intros -> ->. auto. Qed.

Lemma moveUp_valid tw th lb : selectionValid lb -> selectionValid (moveUp tw th lb).
Proof.
  intros H. pose proof (moveUp_selectIndex tw th lb H) as Hs.
  pose proof (moveUp_content tw th lb) as Hc.
  destruct H as [Hlen Hsel]. unfold selectionValid.
  rewrite (lenContent_ext _ _ Hc), Hs. lia.
Qed.

Lemma moveDown_valid tw th lb : selectionValid lb -> selectionValid (moveDown tw th lb).
Proof.
  intros H. pose proof (moveDown_selectIndex tw th lb H) as Hs.
  pose proof (moveDown_content tw th lb) as Hc.
  destruct H as [Hlen Hsel]. unfold selectionValid.
  rewrite (lenContent_ext _ _ Hc), Hs. lia.
Qed.

Lemma drawContent_valid tw th lb :
  selectionValid lb -> selectionValid (fst (drawContent tw th lb)).
Proof.
  apply selectionValid_ext;
    [apply drawContent_content | apply drawContent_selectIndex].
Qed.

Lemma handleEvent_valid lb i :
  selectionValid lb -> selectionValid (fst (handleEvent lb i)).
Proof.
  intros H. unfold handleEvent. destruct (size i) as [tw th].
  destruct (Type_ (event i)); cbn [fst];
    repeat match goal with
           | |- context [if ?c then _ else _] => destruct c
           end; cbn [fst];
    auto using moveUp_valid, moveDown_valid, drawContent_valid.
Qed.

Lemma handleEvent_content lb i : content (fst (handleEvent lb i)) = content lb.
Proof.
  unfold handleEvent. destruct (size i) as [tw th].
  destruct (Type_ (event i)); cbn [fst];
    repeat match goal with
           | |- context [if ?c then _ else _] => destruct c
           end; cbn [fst];
    auto using moveUp_content, moveDown_content, drawContent_content.
Qed.

Lemma eventLoop_valid lb inputs :
  selectionValid lb ->
  selectionValid (fst (eventLoop lb inputs))
  /\ content (fst (eventLoop lb inputs)) = content lb.
Proof.
  revert lb. induction inputs as [|i rest IH]; intros lb H; [now split|].
  cbn [eventLoop].
  pose proof (handleEvent_valid lb i H) as Hv.
  pose proof (handleEvent_content lb i) as Hc.
  destruct (handleEvent lb i) as [lb' [r|]]; cbn [fst] in *; [now split|].
  destruct (IH lb' Hv) as [Hv' Hc']. split; [assumption|congruence].
Qed.

(** The events that move the selection up: arrow up, arrow left, page up,
    the characters k and K, and the wheel turned up; and likewise down. *)
Definition movesUp (ev : Event) : Prop :=
  (Type_ ev = EventKey /\
   (Key ev = KeyArrowUp \/ Key ev = KeyArrowLeft \/ Key ev = KeyPgup))
  \/ (Type_ ev = EventKey /\ Key ev = 0 /\ (Ch ev = 107 \/ Ch ev = 75))
  \/ (Type_ ev = EventMouse /\ Key ev = MouseWheelUp).

Definition movesDown (ev : Event) : Prop :=
  (Type_ ev = EventKey /\
   (Key ev = KeyArrowDown \/ Key ev = KeyArrowRight \/ Key ev = KeyPgdn))
  \/ (Type_ ev = EventKey /\ Key ev = 0 /\ (Ch ev = 106 \/ Ch ev = 74))
  \/ (Type_ ev = EventMouse /\ Key ev = MouseWheelDown).

Lemma handleEvent_movesUp lb i :
  movesUp (event i) -> handleEvent lb i = (moveUp (fst (size i)) (snd (size i)) lb, None).
Proof.
  unfold movesUp, handleEvent, isKey, isCh. destruct (size i) as [tw th].
  intros [[-> [->| [->| ->]]] | [[-> [-> [->| ->]]] | [-> ->]]]; reflexivity.
Qed.

Lemma handleEvent_movesDown lb i :
  movesDown (event i) ->
  handleEvent lb i = (moveDown (fst (size i)) (snd (size i)) lb, None).
Proof.
  unfold movesDown, handleEvent, isKey, isCh. destruct (size i) as [tw th].
  intros [[-> [->| [->| ->]]] | [[-> [-> [->| ->]]] | [-> ->]]]; reflexivity.
Qed.

(** C9.  With a non-empty content and the selection inside it, the
    selection stays inside it whatever events arrive, from the first
    drawing on; an event that moves up takes the index to
    [max 0 (index - 1)], one that moves down to
    [min (len - 1) (index + 1)]: at either end nothing moves and nothing
    wraps around. *)
Theorem C9_selection_in_range (lb : listBox)
  (Hlen : lenContent lb <= Go.maxInt)
  (Hsel : 0 <= selectIndex lb < lenContent lb) :
  (forall init tw th inputs,
      let lb' := fst (displayAndSelect init tw th lb inputs) in
      content lb' = content lb /\ 0 <= selectIndex lb' < lenContent lb)
  /\ (forall i, movesUp (event i) ->
        snd (handleEvent lb i) = None
        /\ selectIndex (fst (handleEvent lb i)) = Z.max 0 (selectIndex lb - 1))
  /\ (forall i, movesDown (event i) ->
        snd (handleEvent lb i) = None
        /\ selectIndex (fst (handleEvent lb i)) =
           Z.min (lenContent lb - 1) (selectIndex lb + 1)).
Proof.
  assert (Hv : selectionValid lb) by (split; assumption).
  split; [|split].
  - intros init tw th inputs lb'. subst lb'. unfold displayAndSelect.
    destruct init as [err|]; cbn [fst]; [now split|].
    destruct (eventLoop_valid (fst (drawContent tw th lb)) inputs
                (drawContent_valid tw th lb Hv)) as [[_ Hs] Hc].
    rewrite drawContent_content in Hc. split; [assumption|].
    now rewrite (lenContent_ext _ _ Hc) in Hs.
  - intros i Hi. rewrite handleEvent_movesUp by assumption. cbn [fst snd].
    split; [reflexivity|]. now apply moveUp_selectIndex.
  - intros i Hi. rewrite handleEvent_movesDown by assumption. cbn [fst snd].
    split; [reflexivity|]. now apply moveDown_selectIndex.
Qed.

Lemma C9_selection_in_range_witness :
  selectIndex (fst (handleEvent menuBox (MkInput (keyPress KeyArrowUp) (80, 24)))) =
  Z.max 0 (selectIndex menuBox - 1).
Proof.
  refine (proj2 (proj1 (proj2 (C9_selection_in_range menuBox _ _))
                   (MkInput (keyPress KeyArrowUp) (80, 24)) _)).
  - vm_compute. discriminate.
  - vm_compute. split; [discriminate|reflexivity].
  - left. split; [reflexivity|]. left. reflexivity.
Defined.

Example navigation_down_down_up :
  selectIndex
    (fst (displayAndSelect None 80 24 menuBox
            [MkInput (keyPress KeyArrowDown) (80, 24);
             MkInput (mouse MouseWheelDown) (80, 24);
             MkInput (charPress "j") (80, 24);
             MkInput (keyPress KeyPgup) (80, 24);
             MkInput (charPress "k") (80, 24)])) = 0.
Proof. vm_compute. reflexivity. Qed.

(** ** Geometry *)

(** The longest content line, in bytes. *)
Definition longest (c : list string) : Z :=
  fold_right Z.max 0 (map Go.len c).

Lemma quo_half (z : Z) :
  0 <= z <= Go.maxInt -> Go.quo z 2 = z ÷ 2 /\ 0 <= 2 * (z ÷ 2) <= z.
Proof.
  intros Hz. assert (H : 0 <= 2 * (z ÷ 2) <= z) by (Z.quot_rem_to_equations; lia).
  split; [|assumption]. unfold Go.quo. apply wrap_small.
  unfold Go.minInt, Go.maxInt in *. lia.
Qed.

(** What does hold of [drawContent], for a terminal, a title and a
    content whose sizes are [int]s: the height, the centre of the terminal
    by halves that round down, the box around the centre, and the title
    two rows above the box. *)
Lemma drawContent_geometry (tw th : Z) (lb : listBox) :
  content lb <> [] ->
  lenContent lb + 2 <= Go.maxInt ->
  0 <= tw <= Go.maxInt -> 0 <= th <= Go.maxInt ->
  Go.len (title lb) <= Go.maxInt ->
  0 <= width (fst (drawContent tw th lb)) <= Go.maxInt ->
  snd (drawContent tw th lb) = None
  /\ height (fst (drawContent tw th lb)) = lenContent lb + 2
  /\ centerX (fst (drawContent tw th lb)) = tw ÷ 2
  /\ centerY (fst (drawContent tw th lb)) = th ÷ 2
  /\ originX (fst (drawContent tw th lb)) =
     tw ÷ 2 - width (fst (drawContent tw th lb)) ÷ 2
  /\ originY (fst (drawContent tw th lb)) = th ÷ 2 - (lenContent lb + 2) ÷ 2
  /\ titlePosX (fst (drawContent tw th lb)) = tw ÷ 2 - Go.len (title lb) ÷ 2
  /\ titlePosY (fst (drawContent tw th lb)) =
     originY (fst (drawContent tw th lb)) - 2.
Proof.
  intros Hne Hh Htw Hth Ht. unfold drawContent.
  destruct (content lb) as [|l c] eqn:Hc; [contradiction|].
  cbn [fst snd height centerX centerY originX originY titlePosX titlePosY width].
  set (w := if _ <? _ then _ else _). intros Hw.
  pose proof (len_nonneg (title lb)) as Ht0.
  assert (Hlen : 0 <= lenContent lb) by (unfold lenContent; lia).
  assert (Hadd : Go.add (lenContent lb) 2 = lenContent lb + 2).
  { unfold Go.add. apply wrap_small. unfold Go.minInt, Go.maxInt in *. lia. }
  rewrite Hadd.
  destruct (quo_half tw Htw) as [-> Hx].
  destruct (quo_half th Hth) as [-> Hy].
  destruct (quo_half w Hw) as [-> Hw2].
  destruct (quo_half (Go.len (title lb)) (conj Ht0 Ht)) as [-> Ht2].
  destruct (quo_half (lenContent lb + 2)) as [-> Hh2]; [lia|].
  unfold Go.sub.
  rewrite (wrap_small (th ÷ 2 - (lenContent lb + 2) ÷ 2))
    by (unfold Go.minInt, Go.maxInt in *; lia).
  rewrite !wrap_small by (unfold Go.minInt, Go.maxInt in *; lia).
  repeat split.
Qed.

(** C8 at the two-line menu.  The first line has 47 bytes and sets the
    width to 59; the second, of 50 bytes, is compared with 59 and not with
    47, and is passed over: the width stays 59, while the longest line
    plus 12 is 62 (and the title has 24 bytes). *)
Theorem C8_width_at_menu :
  map Go.len menu = [47; 50]
  /\ width (fst (drawContent 80 24 menuBox)) = 59
  /\ Z.max (longest menu + 12) (Go.len (title menuBox)) = 62
  /\ height (fst (drawContent 80 24 menuBox)) = 4.
Proof. vm_compute. repeat split. Qed.

(** ** Leaving the list box *)

(** C4, as the code has it.  Ctrl-C, the escape key and the characters q
    and Q all make [displayAndSelect] return the one error [errCtrlC], and
    [main] prints its notice for all of them alike; only the index that
    comes with the error differs (the selection for Ctrl-C, 0 otherwise).
    The error tells a cancellation from the two other ways out: the enter
    key returns the selection without an error, and a fault of the event
    source returns -1 with the error of termbox. *)
Theorem C4_cancellations_share_error (lb : listBox) (i : Input) :
  (Type_ (event i) = EventKey -> Key (event i) = KeyCtrlC ->
   snd (handleEvent lb i) = Some (selectIndex lb, Some errCtrlC))
  /\ (Type_ (event i) = EventKey -> Key (event i) = KeyEsc ->
      snd (handleEvent lb i) = Some (0, Some errCtrlC))
  /\ (Type_ (event i) = EventKey -> Key (event i) = 0 ->
      Ch (event i) = 113 \/ Ch (event i) = 81 ->
      snd (handleEvent lb i) = Some (0, Some errCtrlC))
  /\ (forall r, snd (handleEvent lb i) = Some r ->
        (snd r = Some errCtrlC /\ notice r = Some "cancel login to vm"%string)
        \/ (Type_ (event i) = EventKey /\ Key (event i) = KeyEnter
            /\ r = (selectIndex lb, None))
        \/ (Type_ (event i) = EventError
            /\ r = (-1, foreignError <$> Err (event i)) /\ notice r = None)).
Proof.
  unfold handleEvent, isKey, isCh. destruct (size i) as [tw th].
  split; [|split; [|split]].
  - intros -> ->. reflexivity.
  - intros -> ->. reflexivity.
  - intros -> -> [-> | ->]; reflexivity.
  - intros r. destruct (Type_ (event i)); cbn [snd existsb orb];
      try discriminate.
    + rewrite !orb_false_r.
      repeat match goal with
             | |- context [if ?c then _ else _] => destruct c eqn:?
             end; cbn [snd]; try discriminate; intros [= <-];
        try (left; split; reflexivity).
      right; left. repeat split.
      match goal with H : (Key _ =? KeyEnter) = true |- _ => now apply Z.eqb_eq in H end.
    + repeat match goal with
             | |- context [if ?c then _ else _] => destruct c eqn:?
             end; cbn [snd]; discriminate.
    + intros [= <-]. right; right. repeat split.
      now destruct (Err (event i)).
Qed.

(** C4, as the specification has it, fails: on the menu as first drawn,
    Ctrl-C, the escape key and q give the caller the very same results. *)
Lemma C4_interrupt_same_as_escape :
  snd (displayAndSelect None 80 24 menuBox [MkInput (keyPress KeyCtrlC) (80, 24)]) =
  Done (0, Some errCtrlC)
  /\ snd (displayAndSelect None 80 24 menuBox [MkInput (keyPress KeyEsc) (80, 24)]) =
     Done (0, Some errCtrlC)
  /\ snd (displayAndSelect None 80 24 menuBox [MkInput (charPress "q") (80, 24)]) =
     Done (0, Some errCtrlC).
Proof. vm_compute. repeat split. Qed.

(** ** The user name prompt *)

Lemma substring_full (s : string) : substring 0 (String.length s) s = s.
Proof. induction s as [|c s IH]; simpl; [reflexivity | now rewrite IH]. Qed.

Lemma substring_all (n : nat) (s : string) :
  (substring 0 n s ++ substring n (String.length s - n) s)%string = s.
Proof.
  revert n. induction s as [|c s IH]; intros [|n]; try reflexivity.
  - rewrite Nat.sub_0_r. change (substring 0 0 (String c s)) with EmptyString.
    apply substring_full.
  - simpl.
    change (String c (substring 0 n s ++ substring n (String.length s - n) s)%string
            = String c s).
    now rewrite IH.
Qed.

(** X13.  Where the buffer has two bytes or more, backspace and delete
    take its last two bytes away. *)
Lemma editStep_backspace (name : string) (ev : Event) :
  Type_ ev = EventKey ->
  Key ev = KeyBackspace \/ Key ev = KeyBackspace2 \/ Key ev = KeyDelete ->
  2 <= Go.len name <= Go.maxInt ->
  exists name' tail,
    editStep name ev = Go.Returned (inl name')
    /\ name = (name' ++ tail)%string /\ String.length tail = 2%nat.
Proof.
  intros Ht Hk Hl.
  exists (substring 0 (String.length name - 2) name),
         (substring (String.length name - 2) 2 name).
  split; [|split].
  - assert (Hstep : editStep name ev =
                    (name' ← Go.sliceTo name (Go.sub (Go.len name) 2);
                     Go.Returned (inl name'))).
    { unfold editStep, isKey. rewrite Ht. destruct Hk as [->|[->| ->]]; reflexivity. }
    rewrite Hstep. unfold Go.sliceTo, Go.sub.
    rewrite wrap_small by (unfold Go.minInt, Go.maxInt in *; lia).
    rewrite slice_in_range by lia. unfold_bind. do 2 f_equal.
    f_equal. unfold Go.len. lia.
  - pose proof (substring_all (String.length name - 2) name) as H.
    replace (String.length name - (String.length name - 2))%nat with 2%nat in H
      by (unfold Go.len in Hl; lia).
    now symmetry.
  - apply length_substring. unfold Go.len in Hl. lia.
Qed.

(** C1 at its failing inputs.  Backspace on the empty buffer, and
    backspace after one character, do not leave the buffer as it is: the
    program panics in [name[:len(name)-2]], with the bounds -2 and -1. *)
Theorem C1_backspace_on_short_buffer_panics :
  askForUsername "dev (10.211.55.5)" None [keyPress KeyBackspace] =
  Go.Panicked (Go.SliceBoundsOutOfRange 0 (-2) 0)
  /\ askForUsername "dev (10.211.55.5)" None [charPress "r"; keyPress KeyBackspace2] =
     Go.Panicked (Go.SliceBoundsOutOfRange 0 (-1) 1)
  /\ askForUsername "dev (10.211.55.5)" None
       [charPress "r"; charPress "o"; charPress "o"; charPress "t";
        keyPress KeyDelete; keyPress KeyEnter] =
     Go.Returned (Done ("ro"%string, None)).
Proof. vm_compute. repeat split. Qed.

(** * Further properties *)

(** ** Matching: the building blocks *)

Lemma append_cons (c : ascii) (a b : string) :
  (String c a ++ b)%string = String c (a ++ b)%string.
Proof. reflexivity. Qed.

Lemma append_assoc (a b c : string) :
  ((a ++ b) ++ c)%string = (a ++ b ++ c)%string.
Proof.
  induction a as [|x a IH]; [reflexivity|].
  rewrite !append_cons. now rewrite IH.
Qed.

Lemma append_empty_r (a : string) : (a ++ "")%string = a.
Proof. induction a as [|x a IH]; [reflexivity|]. rewrite append_cons. now rewrite IH. Qed.

Lemma consumed_app (a t : string) : consumed (a ++ t) t = a.
Proof.
  unfold consumed. rewrite length_append.
  replace (String.length a + String.length t - String.length t)%nat
    with (String.length a) by lia.
  induction a as [|x a IH]; [now destruct t|].
  rewrite append_cons. simpl. now rewrite IH.
Qed.

Lemma consumed_all (s : string) : consumed s "" = s.
Proof. rewrite <- (append_empty_r s) at 1. apply consumed_app. Qed.

Lemma consumed_none (s : string) : consumed s s = "".
Proof. apply (consumed_app "" s). Qed.

(** The byte at which a greedy repetition of the class [p] ends: the end
    of the text, or a byte outside the class. *)
Definition stopsAt (p : ascii -> bool) (t : string) : bool :=
  match t with
  | EmptyString => true
  | String c _ => negb (p c)
  end.

Lemma matchK_Lit {A} (l t : string) (caps : Caps) (k : string -> Caps -> option A) :
  matchK (Lit l) (l ++ t) caps k = k t caps.
Proof.
  induction l as [|c l IH]; [reflexivity|].
  rewrite append_cons. destruct l as [|d l].
  - cbn [Lit matchK]. now rewrite Ascii.eqb_refl.
  - change (Lit (String c (String d l))) with (Cat (Chr c) (Lit (String d l))).
    cbn [matchK]. now rewrite Ascii.eqb_refl.
Qed.

Lemma matchK_Lit_mismatch {A} (c d : ascii) (l t : string) (caps : Caps)
  (k : string -> Caps -> option A) :
  c <> d -> matchK (Lit (String c l)) (String d t) caps k = None.
Proof.
  intros H. apply Ascii.eqb_neq in H.
  destruct l as [|e l].
  - cbn [Lit matchK]. now rewrite H.
  - change (Lit (String c (String e l))) with (Cat (Chr c) (Lit (String e l))).
    cbn [matchK]. now rewrite H.
Qed.

Lemma manyK_longest {A} (p : ascii -> bool) (a t : string)
  (k : string -> option A) (x : A) :
  Go.allBytes p a = true -> stopsAt p t = true -> k t = Some x ->
  manyK p (a ++ t) k = Some x.
Proof.
  intros Ha Ht Hk. induction a as [|c a IH].
  - change ("" ++ t)%string with t. destruct t as [|d t]; [exact Hk|].
    cbn [manyK]. cbn [stopsAt] in Ht. apply negb_true_iff in Ht. now rewrite Ht.
  - rewrite append_cons. cbn [manyK]. cbn [Go.allBytes] in Ha.
    apply andb_true_iff in Ha as [-> Ha]. now rewrite (IH Ha).
Qed.

Lemma matchK_Many {A} (p : ascii -> bool) (a t : string) (caps : Caps)
  (k : string -> Caps -> option A) (x : A) :
  Go.allBytes p a = true -> stopsAt p t = true -> k t caps = Some x ->
  matchK (Many p) (a ++ t) caps k = Some x.
Proof. intros. cbn [matchK]. now apply manyK_longest. Qed.

Lemma matchK_Many1 {A} (p : ascii -> bool) (a t : string) (caps : Caps)
  (k : string -> Caps -> option A) (x : A) :
  a <> "" -> Go.allBytes p a = true -> stopsAt p t = true -> k t caps = Some x ->
  matchK (Many1 p) (a ++ t) caps k = Some x.
Proof.
  intros Hne Ha Ht Hk. destruct a as [|c a]; [contradiction|].
  rewrite append_cons. cbn [matchK]. cbn [Go.allBytes] in Ha.
  apply andb_true_iff in Ha as [-> Ha]. now apply manyK_longest.
Qed.

Lemma matchK_Many1_mismatch {A} (p : ascii -> bool) (t : string) (caps : Caps)
  (k : string -> Caps -> option A) :
  stopsAt p t = true -> matchK (Many1 p) t caps k = None.
Proof.
  destruct t as [|c t]; [reflexivity|]. cbn [stopsAt matchK].
  intros H. apply negb_true_iff in H. now rewrite H.
Qed.

(** The search passes over a text in which the pattern matches nowhere. *)
Lemma search_skip (r : re) (pre s : string) :
  (forall d t, In d (list_ascii_of_string pre) ->
               matchK (Cap 0 r) (String d t) [] (fun _ caps => Some caps) = None) ->
  search r (pre ++ s) = search r s.
Proof.
  induction pre as [|d pre IH]; intros H; [reflexivity|].
  rewrite append_cons. cbn [search].
  rewrite H by (left; reflexivity).
  apply IH. intros d' t Hd. apply H. now right.
Qed.

Lemma search_here (r : re) (s : string) (caps : Caps) :
  matchK (Cap 0 r) s [] (fun _ c => Some c) = Some caps -> search r s = Some caps.
Proof. intros H. destruct s; cbn [search]; now rewrite H. Qed.

(** A blank or a tab. *)
Definition blank (c : ascii) : bool := Ascii.eqb c " " || Ascii.eqb c Go.tab.

Lemma blank_In (indent : string) (d : ascii) :
  Go.allBytes blank indent = true -> In d (list_ascii_of_string indent) ->
  d = " "%char \/ d = Go.tab.
Proof.
  induction indent as [|c indent IH]; [contradiction|].
  cbn [Go.allBytes list_ascii_of_string]. intros H [<-|Hin].
  - apply andb_true_iff in H as [H _]. unfold blank in H.
    apply orb_true_iff in H as [H|H]; apply Ascii.eqb_eq in H; auto.
  - apply andb_true_iff in H as [_ H]. auto.
Qed.

Lemma matchK_Many_end {A} (p : ascii -> bool) (a : string) (caps : Caps)
  (k : string -> Caps -> option A) (x : A) :
  Go.allBytes p a = true -> k "" caps = Some x ->
  matchK (Many p) a caps k = Some x.
Proof.
  intros Ha Hk. rewrite <- (append_empty_r a). now apply matchK_Many.
Qed.

Lemma stopsAt_app (p q : ascii -> bool) (a t : string) :
  a <> "" -> Go.allBytes q a = true -> (forall c, q c = true -> p c = false) ->
  stopsAt p (a ++ t) = true.
Proof.
  intros Hne Ha Hpq. destruct a as [|c a]; [contradiction|].
  rewrite append_cons. cbn [stopsAt Go.allBytes] in *.
  apply andb_true_iff in Ha as [Hc _]. now rewrite (Hpq c Hc).
Qed.

Lemma space_not_digitOrDot (c : ascii) : space c = true -> digitOrDot c = false.
Proof. destruct c as [[] [] [] [] [] [] [] []]; cbv; congruence. Qed.

Lemma digitOrDot_not_space (c : ascii) : digitOrDot c = true -> space c = false.
Proof. destruct c as [[] [] [] [] [] [] [] []]; cbv; congruence. Qed.

Ltac stop_here :=
  first [ assumption | reflexivity
        | eapply stopsAt_app;
          [ eassumption | eassumption
          | first [ exact space_not_digitOrDot | exact digitOrDot_not_space ] ] ].

Lemma matchK_Cat_eq {A} (a b : re) (s : string) (caps : Caps)
  (k : string -> Caps -> option A) :
  matchK (Cat a b) s caps k = matchK a s caps (fun t c => matchK b t c k).
Proof. reflexivity. Qed.

Lemma matchK_Cap_eq {A} (i : nat) (a : re) (s : string) (caps : Caps)
  (k : string -> Caps -> option A) :
  matchK (Cap i a) s caps k =
  matchK a s caps (fun t c => k t ((i, consumed s t) :: c)).
Proof. reflexivity. Qed.

Lemma matchK_Eps_eq {A} (s : string) (caps : Caps) (k : string -> Caps -> option A) :
  matchK Eps s caps k = k s caps.
Proof. reflexivity. Qed.

(** One step of a match, read off the head of the pattern. *)
Ltac match_step :=
  cbn beta;
  lazymatch goal with
  | |- matchK (Cat _ _) _ _ _ = _ => rewrite matchK_Cat_eq
  | |- matchK (Cap _ _) _ _ _ = _ => rewrite matchK_Cap_eq
  | |- matchK Eps _ _ _ = _ => rewrite matchK_Eps_eq
  | |- matchK (Lit _) _ _ _ = _ => rewrite matchK_Lit
  | |- matchK (Many1 _) _ _ _ = _ =>
      apply matchK_Many1; [assumption | assumption | stop_here | ]
  | |- matchK (Many _) _ _ _ = _ =>
      apply matchK_Many_end; [assumption | ]
  end.

Ltac open_pattern r := unfold r, Seq; cbn [pattern foldr fold_right].

Lemma inet_modern_match (ip n b rest : string) :
  ip <> "" -> Go.allBytes digitOrDot ip = true ->
  n <> "" -> Go.allBytes digit n = true ->
  b <> "" -> Go.allBytes digitOrDot b = true ->
  Go.allBytes notNewline rest = true ->
  matchK (Cap 0 (pattern inetLinePattern))
    ("inet " ++ ip ++ "/" ++ n ++ " brd " ++ b ++ " " ++ rest)%string []
    (fun _ c => Some c) =
  Some [(0%nat, ("inet " ++ ip ++ "/" ++ n ++ " brd " ++ b ++ " " ++ rest)%string);
        (3%nat, b); (2%nat, n); (1%nat, ip)].
Proof.
  intros Hip1 Hip2 Hn1 Hn2 Hb1 Hb2 Hrest.
  open_pattern inetLinePattern.
  repeat match_step.
  now rewrite !consumed_app, consumed_all.
Qed.

Lemma matchK_Alt_l {A} (a b : re) (s : string) (caps : Caps)
  (k : string -> Caps -> option A) (x : A) :
  matchK a s caps k = Some x -> matchK (Alt a b) s caps k = Some x.
Proof. intros H. cbn [matchK]. now rewrite H. Qed.

Lemma matchK_Alt_r {A} (a b : re) (s : string) (caps : Caps)
  (k : string -> Caps -> option A) :
  matchK a s caps k = None -> matchK (Alt a b) s caps k = matchK b s caps k.
Proof. intros H. cbn [matchK]. now rewrite H. Qed.

Lemma link_modern_match (typ mac bc rest : string) :
  typ <> "" -> Go.allBytes word typ = true ->
  mac <> "" -> Go.allBytes wordOrColon mac = true ->
  bc <> "" -> Go.allBytes wordOrColon bc = true ->
  stopsAt wordOrColon rest = true ->
  matchK (Cap 0 (pattern linkLinePattern))
    ("link/" ++ typ ++ " " ++ mac ++ " brd " ++ bc ++ rest)%string []
    (fun _ c => Some c) =
  Some [(0%nat, ("link/" ++ typ ++ " " ++ mac ++ " brd " ++ bc)%string);
        (3%nat, bc); (2%nat, mac); (1%nat, typ)].
Proof.
  intros Ht1 Ht2 Hm1 Hm2 Hb1 Hb2 Hrest.
  open_pattern linkLinePattern.
  repeat match_step.
  rewrite !consumed_app.
  replace ("link/" ++ typ ++ " " ++ mac ++ " brd " ++ bc ++ rest)%string
    with (("link/" ++ typ ++ " " ++ mac ++ " brd " ++ bc) ++ rest)%string
    by now rewrite !append_assoc.
  now rewrite consumed_app.
Qed.

Lemma ether_match (mac rest : string) :
  mac <> "" -> Go.allBytes wordOrColon mac = true ->
  stopsAt wordOrColon rest = true -> Go.allBytes notNewline rest = true ->
  matchK (Cap 0 (pattern etherLinkPattern)) ("ether " ++ mac ++ rest)%string []
    (fun _ c => Some c) =
  Some [(0%nat, ("ether " ++ mac ++ rest)%string); (1%nat, mac)].
Proof.
  intros Hm1 Hm2 Hstop Hrest.
  open_pattern etherLinkPattern.
  repeat match_step.
  now rewrite !consumed_app, consumed_all.
Qed.

Lemma inet_legacy_match (ip mask bc sp1 sp2 sp3 sp4 rest : string) :
  ip <> "" -> Go.allBytes digitOrDot ip = true ->
  mask <> "" -> Go.allBytes digitOrDot mask = true ->
  bc <> "" -> Go.allBytes digitOrDot bc = true ->
  sp1 <> "" -> Go.allBytes space sp1 = true ->
  sp2 <> "" -> Go.allBytes space sp2 = true ->
  sp3 <> "" -> Go.allBytes space sp3 = true ->
  sp4 <> "" -> Go.allBytes space sp4 = true ->
  stopsAt digitOrDot rest = true ->
  matchK (Cap 0 (pattern inetLinePattern2))
    ("inet " ++ ip ++ sp1 ++ "netmask" ++ sp2 ++ mask ++ sp3 ++ "broadcast"
       ++ sp4 ++ bc ++ rest)%string []
    (fun _ c => Some c) =
  Some [(0%nat, ("inet " ++ ip ++ sp1 ++ "netmask" ++ sp2 ++ mask ++ sp3
                   ++ "broadcast" ++ sp4 ++ bc)%string);
        (3%nat, bc); (2%nat, mask); (1%nat, ip)].
Proof.
  intros Hi1 Hi2 Hm1 Hm2 Hb1 Hb2 H11 H12 H21 H22 H31 H32 H41 H42 Hrest.
  open_pattern inetLinePattern2.
  repeat match_step.
  rewrite !consumed_app.
  replace ("inet " ++ ip ++ sp1 ++ "netmask" ++ sp2 ++ mask ++ sp3 ++ "broadcast"
             ++ sp4 ++ bc ++ rest)%string
    with (("inet " ++ ip ++ sp1 ++ "netmask" ++ sp2 ++ mask ++ sp3 ++ "broadcast"
             ++ sp4 ++ bc) ++ rest)%string
    by now rewrite !append_assoc.
  now rewrite consumed_app.
Qed.

Lemma stopsAt_app_l (p : ascii -> bool) (a t : string) :
  a <> "" -> stopsAt p a = true -> stopsAt p (a ++ t) = true.
Proof. destruct a as [|c a]; [contradiction|]. now rewrite append_cons. Qed.

Lemma consumed_app2 (a b t : string) : consumed (a ++ b ++ t) t = (a ++ b)%string.
Proof. rewrite <- append_assoc. apply consumed_app. Qed.

Lemma begin_indexed_match (idx name rest : string) :
  idx <> "" -> Go.allBytes digit idx = true ->
  name <> "" -> Go.allBytes word name = true ->
  Go.allBytes notNewline rest = true ->
  matchK (Cap 0 (pattern beginLinePattern))
    (idx ++ ": " ++ name ++ ": " ++ rest)%string [] (fun _ c => Some c) =
  Some [(0%nat, (idx ++ ": " ++ name ++ ": " ++ rest)%string);
        (2%nat, name); (1%nat, (idx ++ ": ")%string)].
Proof.
  intros Hi1 Hi2 Hn1 Hn2 Hrest.
  open_pattern beginLinePattern.
  do 3 match_step. apply matchK_Alt_l.
  repeat match_step.
  now rewrite consumed_app, consumed_app2, consumed_all.
Qed.

Lemma begin_plain_match (name rest : string) :
  name <> "" -> Go.allBytes word name = true -> stopsAt digit name = true ->
  Go.allBytes notNewline rest = true ->
  matchK (Cap 0 (pattern beginLinePattern))
    (name ++ ": " ++ rest)%string [] (fun _ c => Some c) =
  Some [(0%nat, (name ++ ": " ++ rest)%string); (2%nat, name); (1%nat, ""%string)].
Proof.
  intros Hn1 Hn2 Hn3 Hrest.
  open_pattern beginLinePattern.
  do 3 match_step. rewrite matchK_Alt_r.
  - repeat match_step.
    now rewrite consumed_app, consumed_none, consumed_all.
  - rewrite matchK_Cat_eq. apply matchK_Many1_mismatch.
    now apply stopsAt_app_l.
Qed.

(** The text [l] occurs somewhere in [s]. *)
Fixpoint occursIn (l s : string) : bool :=
  String.prefix l s ||
  match s with
  | EmptyString => false
  | String _ t => occursIn l t
  end.

Lemma matchK_Lit_none {A} (l s : string) (caps : Caps) (k : string -> Caps -> option A) :
  String.prefix l s = false -> matchK (Lit l) s caps k = None.
Proof.
  revert s. induction l as [|c l IH]; intros s H.
  - now destruct s.
  - destruct s as [|d t].
    + destruct l; reflexivity.
    + cbn [String.prefix] in H. destruct (ascii_dec c d) as [<-|Hne].
      * destruct l as [|e l]; [now destruct t|].
        change (Lit (String c (String e l))) with (Cat (Chr c) (Lit (String e l))).
        cbn [matchK]. rewrite Ascii.eqb_refl. now apply IH.
      * now apply matchK_Lit_mismatch.
Qed.

(** A pattern that begins with the text [l] is found nowhere in a line
    that does not contain [l]. *)
Lemma search_absent (l : string) (r : re) (s : string) :
  occursIn l s = false -> search (Cat (Lit l) r) s = None.
Proof.
  induction s as [|d t IH]; cbn [occursIn search]; intros H;
    apply orb_false_iff in H as [Hp Ho];
    rewrite matchK_Cap_eq, matchK_Cat_eq, matchK_Lit_none by assumption;
    [reflexivity | now apply IH].
Qed.

Lemma skip_indent (l : string) (c : ascii) (r : re) (indent s : string) :
  Go.allBytes blank indent = true -> c <> " "%char -> c <> Go.tab ->
  search (Cat (Lit (String c l)) r) (indent ++ s) = search (Cat (Lit (String c l)) r) s.
Proof.
  intros Hb Hc1 Hc2. apply search_skip. intros d t Hd.
  rewrite matchK_Cap_eq, matchK_Cat_eq. apply matchK_Lit_mismatch.
  destruct (blank_In indent d Hb Hd) as [-> | ->]; assumption.
Qed.

(** ** What the line patterns take from well-formed lines *)

(** One byte or more, all of the class [p]. *)
Definition oneOrMore (p : ascii -> bool) (s : string) : bool :=
  match s with
  | EmptyString => false
  | _ => Go.allBytes p s
  end.

Lemma oneOrMore_spec (p : ascii -> bool) (s : string) :
  oneOrMore p s = true -> s <> "" /\ Go.allBytes p s = true.
Proof. destruct s; [discriminate|]. intros H. split; [discriminate|exact H]. Qed.

Ltac split_oneOrMore :=
  repeat match goal with
         | H : oneOrMore _ _ = true |- _ => apply oneOrMore_spec in H as [? ?]
         end.

Lemma find_inet_modern (indent ip n b rest : string) :
  Go.allBytes blank indent = true ->
  oneOrMore digitOrDot ip = true -> oneOrMore digit n = true ->
  oneOrMore digitOrDot b = true -> Go.allBytes notNewline rest = true ->
  FindStringSubmatch inetLinePattern
    (indent ++ "inet " ++ ip ++ "/" ++ n ++ " brd " ++ b ++ " " ++ rest) =
  [("inet " ++ ip ++ "/" ++ n ++ " brd " ++ b ++ " " ++ rest)%string; ip; n; b].
Proof.
  intros Hind Hip Hn Hb Hrest. split_oneOrMore. unfold FindStringSubmatch.
  assert (Hs : forall s, search (pattern inetLinePattern) (indent ++ s) =
                         search (pattern inetLinePattern) s).
  { intros s. open_pattern inetLinePattern. now apply skip_indent. }
  rewrite Hs, (search_here _ _ _ (inet_modern_match ip n b rest
                                    ltac:(assumption) ltac:(assumption) ltac:(assumption)
                                    ltac:(assumption) ltac:(assumption) ltac:(assumption)
                                    ltac:(assumption))).
  reflexivity.
Qed.

(** X1.  An indented line of [ip address show] that reads
    [inet IP/PREFIX brd BROADCAST ...] puts the three texts into the
    record, the prefix length as the mask, and leaves the other fields. *)
Theorem infoLine_inet_modern (r : LinuxIpAddr.t) (indent ip n b rest : string)
  (Hindent : Go.allBytes blank indent = true)
  (Hip : oneOrMore digitOrDot ip = true)
  (Hn : oneOrMore digit n = true)
  (Hb : oneOrMore digitOrDot b = true)
  (Hrest : Go.allBytes notNewline rest = true) :
  infoLine false r
    (indent ++ "inet " ++ ip ++ "/" ++ n ++ " brd " ++ b ++ " " ++ rest) =
  LinuxIpAddr.Build (LinuxIpAddr.IfName r) (LinuxIpAddr.LinkType r)
    (LinuxIpAddr.Mac r) ip b n.
Proof.
  unfold infoLine. now rewrite find_inet_modern by assumption.
Qed.

Lemma infoLine_inet_modern_witness :
  infoLine false lo
    ("    " ++ "inet " ++ "10.211.55.5" ++ "/" ++ "24" ++ " brd " ++ "10.211.55.255"
       ++ " " ++ "scope global dynamic eth0") =
  LinuxIpAddr.Build "lo" "" "" "10.211.55.5" "10.211.55.255" "24".
Proof.
  exact (infoLine_inet_modern lo "    " "10.211.55.5" "24" "10.211.55.255"
           "scope global dynamic eth0" eq_refl eq_refl eq_refl eq_refl eq_refl).
Defined.

Lemma find_absent (r : Regexp) (l : string) (r' : re) (s : string) :
  pattern r = Cat (Lit l) r' -> occursIn l s = false -> FindStringSubmatch r s = [].
Proof.
  intros Hr H. unfold FindStringSubmatch. rewrite Hr.
  now rewrite search_absent.
Qed.

Lemma find_link_modern (indent typ mac bc rest : string) :
  Go.allBytes blank indent = true ->
  oneOrMore word typ = true -> oneOrMore wordOrColon mac = true ->
  oneOrMore wordOrColon bc = true -> stopsAt wordOrColon rest = true ->
  FindStringSubmatch linkLinePattern
    (indent ++ "link/" ++ typ ++ " " ++ mac ++ " brd " ++ bc ++ rest) =
  [("link/" ++ typ ++ " " ++ mac ++ " brd " ++ bc)%string; typ; mac; bc].
Proof.
  intros Hind Ht Hm Hb Hrest. split_oneOrMore. unfold FindStringSubmatch.
  assert (Hs : forall s, search (pattern linkLinePattern) (indent ++ s) =
                         search (pattern linkLinePattern) s).
  { intros s. open_pattern linkLinePattern. now apply skip_indent. }
  rewrite Hs, (search_here _ _ _ (link_modern_match typ mac bc rest
                                    ltac:(assumption) ltac:(assumption) ltac:(assumption)
                                    ltac:(assumption) ltac:(assumption) ltac:(assumption)
                                    ltac:(assumption))).
  reflexivity.
Qed.

(** X2.  An indented line of [ip address show] that reads
    [link/TYPE MAC brd BROADCAST] and holds no "inet " puts the type and
    the MAC into the record and leaves the address fields. *)
Theorem infoLine_link_modern (r : LinuxIpAddr.t) (indent typ mac bc rest : string)
  (Hindent : Go.allBytes blank indent = true)
  (Htyp : oneOrMore word typ = true)
  (Hmac : oneOrMore wordOrColon mac = true)
  (Hbc : oneOrMore wordOrColon bc = true)
  (Hrest : stopsAt wordOrColon rest = true)
  (Hinet : occursIn "inet "
             (indent ++ "link/" ++ typ ++ " " ++ mac ++ " brd " ++ bc ++ rest) = false) :
  infoLine false r
    (indent ++ "link/" ++ typ ++ " " ++ mac ++ " brd " ++ bc ++ rest) =
  LinuxIpAddr.Build (LinuxIpAddr.IfName r) typ mac
    (LinuxIpAddr.Ip r) (LinuxIpAddr.Broadcast r) (LinuxIpAddr.Mask r).
Proof.
  unfold infoLine.
  rewrite (find_absent inetLinePattern "inet " _ _ eq_refl Hinet).
  now rewrite find_link_modern by assumption.
Qed.

Lemma infoLine_link_modern_witness :
  infoLine false lo
    ("    " ++ "link/" ++ "ether" ++ " " ++ "00:1c:42:c4:5c:24" ++ " brd "
       ++ "ff:ff:ff:ff:ff:ff" ++ " link-netnsid 0") =
  LinuxIpAddr.Build "lo" "ether" "00:1c:42:c4:5c:24" "" "" "".
Proof.
  exact (infoLine_link_modern lo "    " "ether" "00:1c:42:c4:5c:24" "ff:ff:ff:ff:ff:ff"
           " link-netnsid 0" eq_refl eq_refl eq_refl eq_refl eq_refl eq_refl).
Defined.

Lemma find_inet_legacy (indent ip mask bc sp1 sp2 sp3 sp4 rest : string) :
  Go.allBytes blank indent = true ->
  oneOrMore digitOrDot ip = true -> oneOrMore digitOrDot mask = true ->
  oneOrMore digitOrDot bc = true ->
  oneOrMore space sp1 = true -> oneOrMore space sp2 = true ->
  oneOrMore space sp3 = true -> oneOrMore space sp4 = true ->
  stopsAt digitOrDot rest = true ->
  FindStringSubmatch inetLinePattern2
    (indent ++ "inet " ++ ip ++ sp1 ++ "netmask" ++ sp2 ++ mask ++ sp3
       ++ "broadcast" ++ sp4 ++ bc ++ rest) =
  [("inet " ++ ip ++ sp1 ++ "netmask" ++ sp2 ++ mask ++ sp3 ++ "broadcast"
      ++ sp4 ++ bc)%string; ip; mask; bc].
Proof.
  intros Hind Hip Hm Hb H1 H2 H3 H4 Hrest. split_oneOrMore.
  unfold FindStringSubmatch.
  assert (Hs : forall s, search (pattern inetLinePattern2) (indent ++ s) =
                         search (pattern inetLinePattern2) s).
  { intros s. open_pattern inetLinePattern2. now apply skip_indent. }
  rewrite Hs, (search_here _ _ _ (inet_legacy_match ip mask bc sp1 sp2 sp3 sp4 rest
                 ltac:(assumption) ltac:(assumption) ltac:(assumption) ltac:(assumption)
                 ltac:(assumption) ltac:(assumption) ltac:(assumption) ltac:(assumption)
                 ltac:(assumption) ltac:(assumption) ltac:(assumption) ltac:(assumption)
                 ltac:(assumption) ltac:(assumption) ltac:(assumption))).
  reflexivity.
Qed.

(** X3.  An indented line of [ifconfig] that reads
    [inet IP netmask MASK broadcast BROADCAST], with blanks of any width
    between the words, puts the three texts into the record and leaves
    the other fields. *)
Theorem infoLine_inet_legacy (r : LinuxIpAddr.t)
  (indent ip mask bc sp1 sp2 sp3 sp4 rest : string)
  (Hindent : Go.allBytes blank indent = true)
  (Hip : oneOrMore digitOrDot ip = true)
  (Hmask : oneOrMore digitOrDot mask = true)
  (Hbc : oneOrMore digitOrDot bc = true)
  (Hsp1 : oneOrMore space sp1 = true) (Hsp2 : oneOrMore space sp2 = true)
  (Hsp3 : oneOrMore space sp3 = true) (Hsp4 : oneOrMore space sp4 = true)
  (Hrest : stopsAt digitOrDot rest = true) :
  infoLine true r
    (indent ++ "inet " ++ ip ++ sp1 ++ "netmask" ++ sp2 ++ mask ++ sp3
       ++ "broadcast" ++ sp4 ++ bc ++ rest) =
  LinuxIpAddr.Build (LinuxIpAddr.IfName r) (LinuxIpAddr.LinkType r)
    (LinuxIpAddr.Mac r) ip bc mask.
Proof.
  unfold infoLine. now rewrite find_inet_legacy by assumption.
Qed.

Lemma infoLine_inet_legacy_witness :
  infoLine true lo
    ("        " ++ "inet " ++ "10.211.55.5" ++ "  " ++ "netmask" ++ " "
       ++ "255.255.255.0" ++ "  " ++ "broadcast" ++ " " ++ "10.211.55.255" ++ "") =
  LinuxIpAddr.Build "lo" "" "" "10.211.55.5" "10.211.55.255" "255.255.255.0".
Proof.
  exact (infoLine_inet_legacy lo "        " "10.211.55.5" "255.255.255.0"
           "10.211.55.255" "  " " " "  " " " "" eq_refl eq_refl eq_refl eq_refl
           eq_refl eq_refl eq_refl eq_refl eq_refl).
Defined.

Lemma find_ether (indent mac rest : string) :
  Go.allBytes blank indent = true ->
  oneOrMore wordOrColon mac = true -> stopsAt wordOrColon rest = true ->
  Go.allBytes notNewline rest = true ->
  FindStringSubmatch etherLinkPattern (indent ++ "ether " ++ mac ++ rest) =
  [("ether " ++ mac ++ rest)%string; mac].
Proof.
  intros Hind Hm Hstop Hrest. split_oneOrMore. unfold FindStringSubmatch.
  assert (Hs : forall s, search (pattern etherLinkPattern) (indent ++ s) =
                         search (pattern etherLinkPattern) s).
  { intros s. open_pattern etherLinkPattern. now apply skip_indent. }
  rewrite Hs, (search_here _ _ _ (ether_match mac rest
                 ltac:(assumption) ltac:(assumption) ltac:(assumption)
                 ltac:(assumption))).
  reflexivity.
Qed.

(** X4.  An indented line of [ifconfig] that reads [ether MAC ...] and
    holds no "inet " puts the MAC into the record with the link type
    "ether" and leaves the address fields. *)
Theorem infoLine_ether_legacy (r : LinuxIpAddr.t) (indent mac rest : string)
  (Hindent : Go.allBytes blank indent = true)
  (Hmac : oneOrMore wordOrColon mac = true)
  (Hstop : stopsAt wordOrColon rest = true)
  (Hrest : Go.allBytes notNewline rest = true)
  (Hinet : occursIn "inet " (indent ++ "ether " ++ mac ++ rest) = false) :
  infoLine true r (indent ++ "ether " ++ mac ++ rest) =
  LinuxIpAddr.Build (LinuxIpAddr.IfName r) "ether" mac
    (LinuxIpAddr.Ip r) (LinuxIpAddr.Broadcast r) (LinuxIpAddr.Mask r).
Proof.
  unfold infoLine.
  rewrite (find_absent inetLinePattern2 "inet " _ _ eq_refl Hinet).
  now rewrite find_ether by assumption.
Qed.

Lemma infoLine_ether_legacy_witness :
  infoLine true lo
    ("        " ++ "ether " ++ "00:1c:42:c4:5c:24" ++ "  txqueuelen 1000  (Ethernet)") =
  LinuxIpAddr.Build "lo" "ether" "00:1c:42:c4:5c:24" "" "" "".
Proof.
  exact (infoLine_ether_legacy lo "        " "00:1c:42:c4:5c:24"
           "  txqueuelen 1000  (Ethernet)" eq_refl eq_refl eq_refl eq_refl eq_refl).
Defined.

(** X5.  The line that opens an interface gives the record its name: the
    word in front of the first ": ", after the index "N: " of
    [ip address show] or, for [ifconfig], at the start of the line when
    the name does not begin with a digit.  The other fields are empty. *)
Theorem newRecord_name (idx name rest : string)
  (Hname : oneOrMore word name = true)
  (Hrest : Go.allBytes notNewline rest = true) :
  (oneOrMore digit idx = true ->
   newRecord (idx ++ ": " ++ name ++ ": " ++ rest) =
   LinuxIpAddr.Build name "" "" "" "" "")
  /\ (stopsAt digit name = true ->
      newRecord (name ++ ": " ++ rest) = LinuxIpAddr.Build name "" "" "" "" "").
Proof.
  apply oneOrMore_spec in Hname as [Hn1 Hn2]. split.
  - intros Hidx. apply oneOrMore_spec in Hidx as [Hi1 Hi2].
    unfold newRecord, FindStringSubmatch.
    now rewrite (search_here _ _ _ (begin_indexed_match idx name rest Hi1 Hi2 Hn1 Hn2 Hrest)).
  - intros Hd. unfold newRecord, FindStringSubmatch.
    now rewrite (search_here _ _ _ (begin_plain_match name rest Hn1 Hn2 Hd Hrest)).
Qed.

Lemma newRecord_name_witness :
  newRecord ("2" ++ ": " ++ "eth0" ++ ": " ++ "<BROADCAST,MULTICAST,UP,LOWER_UP> mtu 1500") =
  LinuxIpAddr.Build "eth0" "" "" "" "" ""
  /\ newRecord ("eth0" ++ ": " ++ "flags=4163<UP,BROADCAST,RUNNING,MULTICAST>  mtu 1500") =
     LinuxIpAddr.Build "eth0" "" "" "" "" "".
Proof.
  split.
  - exact (proj1 (newRecord_name "2" "eth0" "<BROADCAST,MULTICAST,UP,LOWER_UP> mtu 1500"
                    eq_refl eq_refl) eq_refl).
  - exact (proj2 (newRecord_name "" "eth0"
                    "flags=4163<UP,BROADCAST,RUNNING,MULTICAST>  mtu 1500"
                    eq_refl eq_refl) eq_refl).
Defined.

(** ** Correlation: when it returns, and what it finds *)

(** Every enabled adapter with the prefix "net" declares a MAC that has,
    in lower case, the ten bytes the slicing of [compareMac] needs. *)
Definition macsSliceable (u : string -> string)
  (hw : gmap string (gmap string JValue)) : Prop :=
  forall dev params,
    hw !! dev = Some params ->
    Go.HasPrefix dev "net" = true -> isTrue (params !! "enabled") = true ->
    10 <= Go.len (Go.ToLower u (asString (params !! "mac"))).

Lemma compareMac_Returned u linuxMac prlMac :
  10 <= Go.len (Go.ToLower u prlMac) ->
  exists hit, compareMac u linuxMac prlMac = Go.Returned hit.
Proof.
  intros H. pose proof (compareMac_returns u linuxMac prlMac) as Hr.
  rewrite normalizeMac_returns in Hr. apply Z.leb_le in H. rewrite H in Hr.
  destruct (compareMac u linuxMac prlMac) as [hit|]; [eauto|discriminate].
Qed.

Lemma matchAdapter_Returned u vm ip visit :
  (forall dev params, (dev, params) ∈ visit ->
      Go.HasPrefix dev "net" = true -> isTrue (params !! "enabled") = true ->
      10 <= Go.len (Go.ToLower u (asString (params !! "mac")))) ->
  exists found, matchAdapter u vm ip visit = Go.Returned found.
Proof.
  induction visit as [|[dev params] rest IH]; intros H; [eexists; reflexivity|].
  assert (Hrest : exists found, matchAdapter u vm ip rest = Go.Returned found).
  { apply IH. intros d p Hin. apply H. apply elem_of_cons. now right. }
  cbn [matchAdapter].
  destruct (Go.HasPrefix dev "net") eqn:Hp; [|assumption].
  destruct (isTrue (params !! "enabled")) eqn:He; [|assumption].
  destruct (compareMac_Returned u (LinuxIpAddr.Mac ip) (asString (params !! "mac")))
    as [hit ->].
  { apply (H dev params); [apply elem_of_cons; now left|assumption..]. }
  unfold_bind. destruct hit; [eexists; reflexivity|assumption].
Qed.

Lemma correlate_Returned u vm order k ips addrs :
  ranges (VM.Hardware vm) order -> macsSliceable u (VM.Hardware vm) ->
  exists res, correlate u vm order k ips addrs = Go.Returned res.
Proof.
  intros Hord Hsafe. revert k addrs.
  induction ips as [|ip ips IH]; intros k addrs; [eexists; reflexivity|].
  cbn [correlate].
  destruct (matchAdapter_Returned u vm ip (order k)) as [found ->].
  { intros dev params Hin. apply Hsafe. eauto using ranges_lookup. }
  unfold_bind. apply IH.
Qed.

(** X6.  [showIpAddress] returns, whatever the guest answers and in
    whatever order the hardware map is visited, when every enabled "net"
    adapter of the machine declares a MAC of at least ten bytes (counted
    after lower-casing). *)
Theorem showIpAddress_returns (u : string -> string) (prlctl : Prlctl) (vm : VM.t)
  (order : RangeOrder)
  (Hord : ranges (VM.Hardware vm) order)
  (Hmacs : macsSliceable u (VM.Hardware vm)) :
  exists addrs err, fst (showIpAddress u prlctl vm order) = Go.Returned (addrs, err).
Proof.
  unfold showIpAddress.
  destruct (negb _); [eexists _, _; reflexivity|].
  destruct (_ || _); [|eexists _, _; reflexivity].
  destruct (getIps prlctl vm) as [[ips [e|]] log]; cbn [fst];
    [eexists _, _; reflexivity|].
  destruct (correlate_Returned u vm order 0 ips [] Hord Hmacs) as [res ->].
  eexists _, _; reflexivity.
Qed.

Lemma macsSliceable_vmLinux : macsSliceable noUnicode (VM.Hardware vmLinux).
Proof.
  intros dev params Hl _ _.
  change (VM.Hardware vmLinux) with ({[ "net0" := net0 ]} : gmap string (gmap string JValue)) in Hl.
  apply lookup_singleton_Some in Hl as [_ <-]. vm_compute. discriminate.
Qed.

Lemma showIpAddress_returns_witness :
  exists addrs err,
    fst (showIpAddress noUnicode guestIfconfig vmLinux (inOrder (VM.Hardware vmLinux))) =
    Go.Returned (addrs, err).
Proof.
  apply showIpAddress_returns.
  - intros k. reflexivity.
  - exact macsSliceable_vmLinux.
Defined.

Lemma matchAdapter_finds u vm ip visit found dev params :
  matchAdapter u vm ip visit = Go.Returned found ->
  (dev, params) ∈ visit ->
  Go.HasPrefix dev "net" = true -> isTrue (params !! "enabled") = true ->
  normalizeMac u (asString (params !! "mac")) = Go.Returned (LinuxIpAddr.Mac ip) ->
  exists a, found = Some a /\ IpAddr.IP a = ip.
Proof.
  intros Hm Hin Hp He Hn. induction visit as [|[d p] rest IH];
    [now apply elem_of_nil in Hin|].
  cbn [matchAdapter] in Hm.
  assert (Hhit : d = dev -> p = params ->
                 compareMac u (LinuxIpAddr.Mac ip) (asString (p !! "mac")) =
                 Go.Returned true).
  { intros -> ->. unfold compareMac. rewrite Hn. unfold_bind.
    now rewrite String.eqb_refl. }
  apply elem_of_cons in Hin as [[= <- <-]|Hin].
  - rewrite Hp, He, Hhit in Hm by reflexivity. unfold_bind.
    injection Hm as <-. eexists; split; reflexivity.
  - destruct (Go.HasPrefix d "net"); [|auto].
    destruct (isTrue (p !! "enabled")); [|auto].
    destruct (compareMac u (LinuxIpAddr.Mac ip) (asString (p !! "mac")))
      as [[|]|]; unfold_bind; [|auto|discriminate].
    injection Hm as <-. eexists; split; reflexivity.
Qed.

Lemma correlate_keeps u vm order k ips addrs res a :
  correlate u vm order k ips addrs = Go.Returned res -> a ∈ addrs -> a ∈ res.
Proof.
  revert k addrs. induction ips as [|ip ips IH]; intros k addrs.
  - now intros [= <-].
  - cbn [correlate].
    destruct (matchAdapter u vm ip (order k)) as [found|]; [|discriminate].
    unfold_bind. intros H Ha. apply (IH _ _ H).
    destruct found; [apply elem_of_app; now left|assumption].
Qed.

Lemma correlate_finds u vm order k ips addrs res ip dev params :
  ranges (VM.Hardware vm) order ->
  correlate u vm order k ips addrs = Go.Returned res ->
  ip ∈ ips ->
  VM.Hardware vm !! dev = Some params ->
  Go.HasPrefix dev "net" = true -> isTrue (params !! "enabled") = true ->
  normalizeMac u (asString (params !! "mac")) = Go.Returned (LinuxIpAddr.Mac ip) ->
  exists a, a ∈ res /\ IpAddr.IP a = ip.
Proof.
  intros Hord Hc Hin Hl Hp He Hn. revert k addrs Hc.
  induction ips as [|ip' ips IH]; intros k addrs Hc; [now apply elem_of_nil in Hin|].
  cbn [correlate] in Hc.
  destruct (matchAdapter u vm ip' (order k)) as [found|] eqn:Hm; [|discriminate].
  unfold_bind. apply elem_of_cons in Hin as [->|Hin]; [|eauto].
  assert (Hv : (dev, params) ∈ order k).
  { rewrite (Hord k). now apply elem_of_map_to_list. }
  destruct (matchAdapter_finds _ _ _ _ _ _ _ Hm Hv Hp He Hn) as (a & -> & Ha).
  exists a. split; [|assumption].
  apply (correlate_keeps _ _ _ _ _ _ _ _ Hc). apply elem_of_app. right.
  apply list_elem_of_singleton. reflexivity.
Qed.

(** X7.  When [showIpAddress] returns without an error, every interface
    record of the guest whose MAC is the normalised MAC of some enabled
    "net" adapter of the machine has an entry in the result. *)
Theorem showIpAddress_complete (u : string -> string) (prlctl : Prlctl) (vm : VM.t)
  (order : RangeOrder) (addrs : list IpAddr.t)
  (ip : LinuxIpAddr.t) (dev : string) (params : gmap string JValue)
  (Hord : ranges (VM.Hardware vm) order)
  (Hres : fst (showIpAddress u prlctl vm order) = Go.Returned (addrs, None))
  (Hip : ip ∈ fst (fst (getIps prlctl vm)))
  (Hdev : VM.Hardware vm !! dev = Some params)
  (Hnet : Go.HasPrefix dev "net" = true)
  (Hen : isTrue (params !! "enabled") = true)
  (Hmac : normalizeMac u (asString (params !! "mac")) =
          Go.Returned (LinuxIpAddr.Mac ip)) :
  exists a, a ∈ addrs /\ IpAddr.IP a = ip.
Proof.
  revert Hres Hip. unfold showIpAddress.
  destruct (negb _); [discriminate|].
  destruct (_ || _); [|discriminate].
  destruct (getIps prlctl vm) as [[ips [e|]] log]; cbn [fst]; [discriminate|].
  destruct (correlate u vm order 0 ips []) as [res|] eqn:Hc; [|discriminate].
  unfold_bind. intros [= <-] Hip.
  eauto using correlate_finds.
Qed.

Lemma showIpAddress_complete_witness :
  exists a, a ∈ [IpAddr.Build eth0 vmLinux "net0" true "bridged"] /\ IpAddr.IP a = eth0.
Proof.
  refine (showIpAddress_complete noUnicode guestIfconfig vmLinux
            (inOrder (VM.Hardware vmLinux)) _ eth0 "net0" net0 _ _ _ _ _ _ _).
  - intros k. reflexivity.
  - vm_compute. reflexivity.
  - replace (getIps guestIfconfig vmLinux) with
      (([eth0; lo], @None error),
       [["exec"; "{1f2e}"; "whereis"; "ifconfig"]; ["exec"; "{1f2e}"; "ifconfig"]])
      by (vm_compute; reflexivity).
    apply elem_of_cons. now left.
  - reflexivity.
  - reflexivity.
  - reflexivity.
  - reflexivity.
Defined.

(** ** The list box: width, redrawing, repeated moves, the index returned *)

(** The lines are short enough for [len(l) + 12] to be an [int]. *)
Definition linesFit (c : list string) : Prop :=
  Forall (fun l => Go.len l + 12 <= Go.maxInt) c.

Lemma widen_bounds (w : Z) (l : string) :
  Go.len l + 12 <= Go.maxInt ->
  w <= widen w l /\ Go.len l <= widen w l /\ widen w l <= Z.max w (Go.len l + 12).
Proof.
  intros H. pose proof (len_nonneg l). unfold widen, Go.add.
  rewrite wrap_small by (unfold Go.minInt, Go.maxInt in *; lia).
  destruct (Z.ltb_spec w (Go.len l)); lia.
Qed.

Lemma fold_widen_bounds (c : list string) (w : Z) :
  linesFit c ->
  w <= fold_left widen c w
  /\ Forall (fun l => Go.len l <= fold_left widen c w) c
  /\ fold_left widen c w <= Z.max w (longest c + 12).
Proof.
  intros Hfit. revert w. induction Hfit as [|l c Hl _ IH]; intros w.
  - cbn. repeat split; [lia|constructor|lia].
  - cbn [fold_left]. destruct (widen_bounds w l Hl) as (H1 & H2 & H3).
    destruct (IH (widen w l)) as (I1 & I2 & I3).
    split; [lia|]. split.
    + constructor; [lia|assumption].
    + unfold longest in *. cbn [map fold_right]. lia.
Qed.

Lemma fold_widen_fixed (c : list string) (w : Z) :
  Forall (fun l => Go.len l <= w) c -> fold_left widen c w = w.
Proof.
  induction 1 as [|l c Hl _ IH]; [reflexivity|].
  cbn [fold_left]. unfold widen at 2.
  destruct (Z.ltb_spec w (Go.len l)); [lia|assumption].
Qed.

(** X8.  After [drawContent] the box is at least as wide as the title and
    as every content line, and no narrower than before; it is at most
    the larger of the old width, the title and the longest line plus 12.
    (The width is not always that maximum; the content is drawn four
    columns inside the box.) *)
Theorem drawContent_width_bounds (tw th : Z) (lb : listBox)
  (Hne : content lb <> [])
  (Hfit : linesFit (content lb)) :
  width lb <= width (fst (drawContent tw th lb))
  /\ Go.len (title lb) <= width (fst (drawContent tw th lb))
  /\ Forall (fun l => Go.len l <= width (fst (drawContent tw th lb))) (content lb)
  /\ width (fst (drawContent tw th lb)) <=
     Z.max (Z.max (width lb) (longest (content lb) + 12)) (Go.len (title lb)).
Proof.
  unfold drawContent. destruct (content lb) as [|l c] eqn:Hc; [contradiction|].
  cbn [fst width].
  destruct (fold_widen_bounds (l :: c) (width lb) Hfit) as (H1 & H2 & H3).
  set (w := fold_left widen (l :: c) (width lb)) in *.
  destruct (Z.ltb_spec w (Go.len (title lb))).
  - repeat split; try lia.
    eapply Forall_impl; [exact H2|]. cbn beta. intros; lia.
  - repeat split; try lia. exact H2.
Qed.

Lemma drawContent_width_bounds_witness :
  Forall (fun l => Go.len l <= width (fst (drawContent 80 24 menuBox))) menu.
Proof.
  refine (proj1 (proj2 (proj2 (drawContent_width_bounds 80 24 menuBox _ _)))).
  - discriminate.
  - repeat constructor; vm_compute; discriminate.
Defined.

(** The width [drawContent] arrives at, and the list box it leaves for a
    given width. *)
Definition finalWidth (lb : listBox) : Z :=
  let w := fold_left widen (content lb) (width lb) in
  if w <? Go.len (title lb) then Go.len (title lb) else w.

Definition placed (tw th : Z) (lb : listBox) (w : Z) : listBox :=
  let h := Go.add (lenContent lb) 2 in
  MkListBox (title lb)
    (Go.sub (Go.quo tw 2) (Go.quo (Go.len (title lb)) 2))
    (Go.sub (Go.sub (Go.quo th 2) (Go.quo h 2)) 2)
    (Go.sub (Go.quo tw 2) (Go.quo w 2))
    (Go.sub (Go.quo th 2) (Go.quo h 2))
    (Go.quo tw 2) (Go.quo th 2) w h (selectIndex lb) (content lb).

Lemma drawContent_placed (tw th : Z) (lb : listBox) :
  content lb <> [] ->
  drawContent tw th lb = (placed tw th lb (finalWidth lb), None).
Proof.
  intros Hne. unfold drawContent, placed, finalWidth.
  destruct (content lb) eqn:Hc; [contradiction|reflexivity].
Qed.

Lemma placed_placed (tw th : Z) (lb : listBox) (w w' : Z) :
  placed tw th (placed tw th lb w) w' = placed tw th lb w'.
Proof. reflexivity. Qed.

(** X9.  Drawing again on a terminal of the same size changes nothing:
    the list box after two drawings is the list box after one. *)
Theorem drawContent_idempotent (tw th : Z) (lb : listBox)
  (Hfit : linesFit (content lb)) :
  drawContent tw th (fst (drawContent tw th lb)) = drawContent tw th lb.
Proof.
  destruct (content lb) as [|l c] eqn:Hc.
  - unfold drawContent. rewrite Hc. cbn [fst]. now rewrite Hc.
  - assert (Hne : content lb <> []) by (rewrite Hc; discriminate).
    rewrite <- Hc in Hfit.
    destruct (drawContent_width_bounds tw th lb Hne Hfit) as (_ & Ht & Hl & _).
    rewrite (drawContent_placed tw th lb Hne) in *. cbn [fst] in *.
    rewrite drawContent_placed by (cbn [placed content]; assumption).
    rewrite placed_placed. do 2 f_equal.
    cbn [placed width] in Ht, Hl.
    unfold finalWidth at 1. cbn [placed content width title].
    rewrite (fold_widen_fixed _ _ Hl).
    destruct (Z.ltb_spec (finalWidth lb) (Go.len (title lb))); [lia|reflexivity].
Qed.

Lemma drawContent_idempotent_witness :
  drawContent 80 24 (fst (drawContent 80 24 menuBox)) = drawContent 80 24 menuBox.
Proof.
  apply drawContent_idempotent. repeat constructor; vm_compute; discriminate.
Defined.

Lemma eventLoop_cons lb i rest :
  snd (handleEvent lb i) = None ->
  eventLoop lb (i :: rest) = eventLoop (fst (handleEvent lb i)) rest.
Proof. cbn [eventLoop]. destruct (handleEvent lb i) as [lb' [r|]]; [discriminate|reflexivity]. Qed.

Lemma eventLoop_moves (f : Z -> Z -> listBox -> listBox) (step : Z -> Z)
  (P : Event -> Prop) (L : Z) :
  (forall lb i, P (event i) -> handleEvent lb i = (f (fst (size i)) (snd (size i)) lb, None)) ->
  (forall tw th lb, selectionValid lb -> lenContent lb = L ->
      selectionValid (f tw th lb)
      /\ lenContent (f tw th lb) = L
      /\ selectIndex (f tw th lb) = step (selectIndex lb)) ->
  forall inputs lb,
    selectionValid lb -> lenContent lb = L ->
    Forall (fun i => P (event i)) inputs ->
    snd (eventLoop lb inputs) = Waiting
    /\ selectIndex (fst (eventLoop lb inputs)) =
       Nat.iter (length inputs) step (selectIndex lb).
Proof.
  intros Hh Hf. induction inputs as [|i rest IH]; intros lb Hv HL Hall.
  - repeat split.
  - apply Forall_cons in Hall as [Hi Hall].
    rewrite eventLoop_cons by (now rewrite Hh).
    rewrite Hh by assumption. cbn [fst].
    destruct (Hf (fst (size i)) (snd (size i)) lb Hv HL) as (Hv' & Hl & Hs).
    destruct (IH _ Hv' Hl Hall) as (I1 & I3).
    split; [assumption|].
    rewrite I3, Hs. cbn [length]. now rewrite Nat.iter_succ_r.
Qed.

Lemma iter_down (n : nat) (len i : Z) :
  i < len ->
  Nat.iter n (fun j => Z.min (len - 1) (j + 1)) i = Z.min (len - 1) (i + Z.of_nat n).
Proof.
  intros H. induction n as [|n IH]; [cbn; lia|].
  rewrite Nat.iter_succ, IH. lia.
Qed.

Lemma iter_up (n : nat) (i : Z) :
  0 <= i -> Nat.iter n (fun j => Z.max 0 (j - 1)) i = Z.max 0 (i - Z.of_nat n).
Proof.
  intros H. induction n as [|n IH]; [cbn; lia|].
  rewrite Nat.iter_succ, IH. lia.
Qed.

(** X10.  Moves add up and stop at the ends: [n] events that move down
    (whichever keys or wheel turns) take the selection from [i] to
    [min (len - 1) (i + n)], [n] events that move up take it to
    [max 0 (i - n)], and the list box goes on waiting for events. *)
Theorem eventLoop_repeated_moves (lb : listBox) (inputs : list Input)
  (Hlen : lenContent lb <= Go.maxInt)
  (Hsel : 0 <= selectIndex lb < lenContent lb) :
  (Forall (fun i => movesDown (event i)) inputs ->
   snd (eventLoop lb inputs) = Waiting
   /\ selectIndex (fst (eventLoop lb inputs)) =
      Z.min (lenContent lb - 1) (selectIndex lb + Z.of_nat (length inputs)))
  /\ (Forall (fun i => movesUp (event i)) inputs ->
      snd (eventLoop lb inputs) = Waiting
      /\ selectIndex (fst (eventLoop lb inputs)) =
         Z.max 0 (selectIndex lb - Z.of_nat (length inputs))).
Proof.
  assert (Hv : selectionValid lb) by (split; assumption).
  split; intros Hall.
  - destruct (eventLoop_moves moveDown (fun j => Z.min (lenContent lb - 1) (j + 1))
                movesDown (lenContent lb)) with (inputs := inputs) (lb := lb)
      as (H1 & H3); try assumption; try reflexivity.
    + intros. now apply handleEvent_movesDown.
    + intros tw th lb' Hv' HL. split; [now apply moveDown_valid|].
      split; [now rewrite (lenContent_ext _ _ (moveDown_content tw th lb'))|].
      rewrite <- HL. now apply moveDown_selectIndex.
    + split; [assumption|]. rewrite H3. apply iter_down. lia.
  - destruct (eventLoop_moves moveUp (fun j => Z.max 0 (j - 1))
                movesUp (lenContent lb)) with (inputs := inputs) (lb := lb)
      as (H1 & H3); try assumption; try reflexivity.
    + intros. now apply handleEvent_movesUp.
    + intros tw th lb' Hv' HL. split; [now apply moveUp_valid|].
      split; [now rewrite (lenContent_ext _ _ (moveUp_content tw th lb'))|].
      now apply moveUp_selectIndex.
    + split; [assumption|]. rewrite H3. apply iter_up. lia.
Qed.

Lemma eventLoop_repeated_moves_witness :
  selectIndex
    (fst (eventLoop menuBox
            [MkInput (keyPress KeyArrowDown) (80, 24);
             MkInput (mouse MouseWheelDown) (80, 24);
             MkInput (charPress "j") (80, 24)])) =
  Z.min (lenContent menuBox - 1) (selectIndex menuBox + 3).
Proof.
  refine (proj2 (proj1 (eventLoop_repeated_moves menuBox _ _ _) _)).
  - vm_compute. discriminate.
  - vm_compute. split; [discriminate|reflexivity].
  - constructor; [|constructor; [|constructor; [|constructor]]].
    + left. split; [reflexivity|]. left. reflexivity.
    + right. right. split; reflexivity.
    + right. left. split; [reflexivity|]. split; [reflexivity|]. left. reflexivity.
Defined.

Lemma handleEvent_selected lb i idx :
  snd (handleEvent lb i) = Some (idx, None) ->
  idx = selectIndex lb \/ (Type_ (event i) = EventError /\ Err (event i) = None).
Proof.
  unfold handleEvent. destruct (size i) as [tw th].
  destruct (Type_ (event i)); cbn [snd]; try discriminate.
  - repeat match goal with
           | |- context [if ?c then _ else _] => destruct c
           end; cbn [snd]; try discriminate.
    intros [= <-]. now left.
  - repeat match goal with
           | |- context [if ?c then _ else _] => destruct c
           end; cbn [snd]; discriminate.
  - destruct (Err (event i)); [discriminate|]. intros _. right. now split.
Qed.

Lemma eventLoop_selected lb inputs idx :
  selectionValid lb ->
  Forall (fun i => Type_ (event i) = EventError -> Err (event i) <> None) inputs ->
  snd (eventLoop lb inputs) = Done (idx, None) ->
  0 <= idx < lenContent lb.
Proof.
  revert lb. induction inputs as [|i rest IH]; intros lb Hv Hall; [discriminate|].
  apply Forall_cons in Hall as [Hi Hall]. cbn [eventLoop].
  pose proof (handleEvent_valid lb i Hv) as Hv'.
  pose proof (handleEvent_content lb i) as Hc.
  pose proof (handleEvent_selected lb i idx) as Hs.
  destruct (handleEvent lb i) as [lb' [r|]]; cbn [fst snd] in *.
  - intros [= ->]. destruct Hs as [->|[Ht He]]; [reflexivity|apply Hv|].
    now apply Hi in Ht.
  - intros H. rewrite <- (lenContent_ext _ _ Hc). now apply IH.
Qed.

(** X11.  When [displayAndSelect] returns without an error, the index it
    returns is inside the content, so that [main] can use it as it is;
    this holds as long as an error event of termbox carries an error. *)
Theorem displayAndSelect_index_valid (init : option string) (tw th : Z)
  (lb : listBox) (inputs : list Input) (idx : Z)
  (Hlen : lenContent lb <= Go.maxInt)
  (Hsel : 0 <= selectIndex lb < lenContent lb)
  (Herr : Forall (fun i => Type_ (event i) = EventError -> Err (event i) <> None) inputs)
  (Hdone : snd (displayAndSelect init tw th lb inputs) = Done (idx, None)) :
  0 <= idx < lenContent lb.
Proof.
  revert Hdone. unfold displayAndSelect. destruct init as [e|]; [discriminate|].
  intros H.
  rewrite <- (lenContent_ext _ _ (drawContent_content tw th lb)).
  eapply eventLoop_selected; [|exact Herr|exact H].
  apply drawContent_valid. split; assumption.
Qed.

Lemma displayAndSelect_index_valid_witness : 0 <= 1 < lenContent menuBox.
Proof.
  refine (displayAndSelect_index_valid None 80 24 menuBox
            [MkInput (keyPress KeyArrowDown) (80, 24);
             MkInput (keyPress KeyEnter) (80, 24)] 1 _ _ _ _).
  - vm_compute. discriminate.
  - vm_compute. split; [discriminate|reflexivity].
  - repeat constructor; discriminate.
  - vm_compute. reflexivity.
Defined.

(** ** The user name prompt: typing and leaving *)

Definition specialKeys : list Z :=
  [KeyCtrlC; KeyEsc; KeyBackspace; KeyBackspace2; KeyDelete; KeyEnter].

(** An event that neither edits backwards nor ends the prompt: any event
    but a key event with one of the six special keys. *)
Definition plain (ev : Event) : Prop :=
  Type_ ev = EventKey -> isKey ev specialKeys = false.

(** The bytes an event adds to the buffer. *)
Definition typedBy (ev : Event) : string :=
  match Type_ ev with
  | EventKey => Go.encodeRune (Ch ev)
  | _ => EmptyString
  end.

Fixpoint typedText (evs : list Event) : string :=
  match evs with
  | [] => EmptyString
  | ev :: rest => (typedBy ev ++ typedText rest)%string
  end.

Lemma editStep_plain (name : string) (ev : Event) :
  plain ev -> editStep name ev = Go.Returned (inl (name ++ typedBy ev)%string).
Proof.
  unfold plain, editStep, typedBy, isKey, specialKeys. intros H.
  destruct (Type_ ev); try (now rewrite append_empty_r).
  specialize (H eq_refl). cbn [existsb] in *.
  repeat (apply orb_false_iff in H as [? H]).
  repeat match goal with Hk : (_ =? _) = false |- _ => rewrite Hk; clear Hk end.
  reflexivity.
Qed.

Lemma entering_plain (name : string) (evs rest : list Event) :
  Forall plain evs ->
  entering name (evs ++ rest) = entering (name ++ typedText evs)%string rest.
Proof.
  intros H. revert name. induction H as [|ev evs Hev _ IH]; intros name.
  - cbn [app typedText]. now rewrite append_empty_r.
  - cbn [app entering typedText]. rewrite editStep_plain by assumption.
    unfold_bind. rewrite IH. now rewrite append_assoc.
Qed.

(** X12.  Whatever is typed into the prompt, in whatever mix with resize
    and mouse events, the buffer is the UTF-8 text of the characters in
    the order typed: enter returns it, while the prompt waits it returns
    nothing, and Ctrl-C and the escape key return the empty name with two
    different errors. *)
Theorem askForUsername_typing (info : string) (evs : list Event)
  (Hplain : Forall plain evs) :
  askForUsername info None evs = Go.Returned Waiting
  /\ askForUsername info None (evs ++ [keyPress KeyEnter]) =
     Go.Returned (Done (typedText evs, None))
  /\ askForUsername info None (evs ++ [keyPress KeyCtrlC]) =
     Go.Returned (Done (""%string, Some errCtrlC))
  /\ askForUsername info None (evs ++ [keyPress KeyEsc]) =
     Go.Returned (Done (""%string, Some (errorString "cancelled"))).
Proof.
  unfold askForUsername. repeat split.
  - rewrite <- (app_nil_r evs). now rewrite entering_plain.
  - now rewrite entering_plain.
  - now rewrite entering_plain.
  - now rewrite entering_plain.
Qed.

Lemma askForUsername_typing_witness :
  askForUsername "dev (10.211.55.5)" None
    ([charPress "j"; MkEvent EventResize 0 0 0 100 30 None 0 0 0; charPress "o"]
       ++ [keyPress KeyEnter]) =
  Go.Returned (Done ("jo"%string, None)).
Proof.
  refine (proj1 (proj2 (askForUsername_typing "dev (10.211.55.5)"
            [charPress "j"; MkEvent EventResize 0 0 0 100 30 None 0 0 0; charPress "o"] _))).
  constructor; [|constructor; [|constructor; [|constructor]]].
  - intros _. reflexivity.
  - discriminate.
  - intros _. reflexivity.
Defined.

Lemma editStep_backspace_witness :
  exists name' tail,
    editStep "root" (keyPress KeyBackspace) = Go.Returned (inl name')
    /\ "root"%string = (name' ++ tail)%string /\ String.length tail = 2%nat.
Proof.
  apply editStep_backspace.
  - reflexivity.
  - left. reflexivity.
  - vm_compute. split; discriminate.
Defined.

(** ** [main] *)

(** X14.  [main] starts [ssh] only after the list box has returned an
    index without an error, and then for the address at that index of
    the collected list, on the port of the flags, and as the user of the
    flags unless [--ask] is set. *)
Theorem main_launches_selected (u : string -> string) (prlctl : Prlctl)
  (flags : Flags) (vms : list (VM.t * RangeOrder))
  (ls : ListSession) (ps : PromptSession) (args : list string)
  (Hrun : launched (main u prlctl flags vms ls ps) = Some args) :
  help flags = false
  /\ exists availableIps log index ip name,
      collect u prlctl vms [] = (Go.Returned availableIps, log)
      /\ snd (displayAndSelect (listInit ls) (fst (listSize ls)) (snd (listSize ls))
                (newListBox "Choose VM from parallels" (map displayLine availableIps))
                (listInputs ls)) = Done (index, None)
      /\ 0 <= index
      /\ availableIps !! Z.to_nat index = Some ip
      /\ args = sshLogin ip name (port flags)
      /\ (ask flags = false -> name = user flags).
Proof.
  unfold main in Hrun.
  destruct (help flags); [discriminate Hrun|]. split; [reflexivity|].
  destruct (collect u prlctl vms []) as [[availableIps|p] log];
    [|discriminate Hrun].
  destruct availableIps as [|a0 rest]; [discriminate Hrun|].
  set (avail := a0 :: rest) in *.
  destruct (snd (displayAndSelect _ _ _ _ _)) as [[index [err|]]|] eqn:Hsel;
    try discriminate Hrun.
  unfold connect in Hrun.
  destruct (Z.leb_spec 0 index) as [H0|]; cbn [andb] in Hrun;
    [|discriminate Hrun].
  destruct (_ <? _); [|discriminate Hrun].
  destruct (avail !! Z.to_nat index) as [ip|] eqn:Hip; [|discriminate Hrun].
  destruct (ask flags).
  - destruct (askForUsername _ _ _) as [[[name [e|]]|]|];
      cbn [launched] in Hrun; try discriminate Hrun;
      injection Hrun as <-; eexists avail, log, index, ip, _;
      repeat split; try eassumption; try reflexivity; discriminate.
  - cbn [launched] in Hrun. injection Hrun as <-.
    eexists avail, log, index, ip, _.
    repeat split; try eassumption; reflexivity.
Qed.

Definition flagsDefault : Flags := MkFlags 22 "root" false false.

Definition pickFirst : ListSession :=
  MkListSession None (80, 24) [MkInput (keyPress KeyEnter) (80, 24)].

Definition noPrompt : PromptSession := MkPromptSession None [].

Example main_scenarioA :
  main noUnicode guestIfconfig flagsDefault
    [(vmLinux, inOrder (VM.Hardware vmLinux))] pickFirst noPrompt =
  MkRun [["exec"; "{1f2e}"; "whereis"; "ifconfig"]; ["exec"; "{1f2e}"; "ifconfig"]]
    [] (Some ["ssh"; "10.211.55.5"; "-l"; "root"; "-p"; "22"]) Exited.
Proof. vm_compute. reflexivity. Qed.

Lemma main_launches_selected_witness :
  help flagsDefault = false
  /\ exists availableIps log index ip name,
      collect noUnicode guestIfconfig [(vmLinux, inOrder (VM.Hardware vmLinux))] [] =
      (Go.Returned availableIps, log)
      /\ snd (displayAndSelect (listInit pickFirst) (fst (listSize pickFirst))
                (snd (listSize pickFirst))
                (newListBox "Choose VM from parallels" (map displayLine availableIps))
                (listInputs pickFirst)) = Done (index, None)
      /\ 0 <= index
      /\ availableIps !! Z.to_nat index = Some ip
      /\ ["ssh"; "10.211.55.5"; "-l"; "root"; "-p"; "22"]%string =
         sshLogin ip name (port flagsDefault)
      /\ (ask flagsDefault = false -> name = user flagsDefault).
Proof.
  apply (main_launches_selected noUnicode guestIfconfig flagsDefault
           [(vmLinux, inOrder (VM.Hardware vmLinux))] pickFirst noPrompt).
  vm_compute. reflexivity.
Defined.

(** A machine that [showIpAddress] passes over without asking the guest. *)
Definition passedOver (vm : VM.t) : Prop :=
  VM.State vm <> "running"%string
  \/ (VM.OS vm <> "linux"%string /\ VM.OS vm <> "ubuntu"%string).

Lemma collect_passedOver u prlctl vms acc :
  Forall (fun vo => passedOver (fst vo)) vms ->
  collect u prlctl vms acc = (Go.Returned acc, []).
Proof.
  induction 1 as [|[vm order] vms Hvm _ IH]; [reflexivity|].
  cbn [fst] in Hvm.
  assert (H : exists e, showIpAddress u prlctl vm order = (Go.Returned ([], Some e), [])).
  { destruct (String.eqb_spec (VM.State vm) "running") as [Hr|Hr].
    - destruct Hvm as [Hs|[H1 H2]]; [contradiction|].
      eexists. now apply showIpAddress_not_supported.
    - eexists. now apply showIpAddress_not_running. }
  destruct H as [e He]. now rewrite (collect_skip _ _ _ _ e).
Qed.

(** X15.  When no machine is running a supported system (in particular
    when there is no machine at all), [main] runs no command on any
    guest, opens no dialog, prints "no available(running) vm found!" and
    starts no [ssh]. *)
Theorem main_nothing_available (u : string -> string) (prlctl : Prlctl)
  (flags : Flags) (vms : list (VM.t * RangeOrder))
  (ls : ListSession) (ps : PromptSession)
  (Hhelp : help flags = false)
  (Hvms : Forall (fun vo => passedOver (fst vo)) vms) :
  main u prlctl flags vms ls ps =
  MkRun [] [println "no available(running) vm found!"] None Exited.
Proof.
  unfold main. rewrite Hhelp. now rewrite collect_passedOver.
Qed.

Lemma main_nothing_available_witness :
  main noUnicode guestIfconfig flagsDefault
    [(vmStopped, inOrder (VM.Hardware vmStopped));
     (vmWindows, inOrder (VM.Hardware vmWindows))] pickFirst noPrompt =
  MkRun [] [println "no available(running) vm found!"] None Exited.
Proof.
  apply main_nothing_available; [reflexivity|].
  constructor; [left; discriminate|].
  constructor; [right; split; discriminate|constructor].
Defined.

(** X16.  With [--ask], a prompt that fails does not stop the login:
    when termbox cannot be initialised for the prompt, and also when the
    operator leaves the prompt with Ctrl-C or the escape key, [ssh] is
    started for the selected address as the user of the flags. *)
Theorem main_prompt_falls_back (u : string -> string) (prlctl : Prlctl)
  (flags : Flags) (vms : list (VM.t * RangeOrder))
  (ls : ListSession) (ps : PromptSession)
  (availableIps : list IpAddr.t) (log : Log) (index : Z) (ip : IpAddr.t)
  (Hhelp : help flags = false)
  (Hask : ask flags = true)
  (Hcollect : collect u prlctl vms [] = (Go.Returned availableIps, log))
  (Hsel : snd (displayAndSelect (listInit ls) (fst (listSize ls)) (snd (listSize ls))
                 (newListBox "Choose VM from parallels" (map displayLine availableIps))
                 (listInputs ls)) = Done (index, None))
  (Hindex : 0 <= index)
  (Hip : availableIps !! Z.to_nat index = Some ip)
  (Hprompt : promptInit ps <> None
             \/ (promptInit ps = None
                 /\ exists evs k more,
                     promptEvents ps = evs ++ keyPress k :: more
                     /\ Forall plain evs /\ (k = KeyCtrlC \/ k = KeyEsc))) :
  main u prlctl flags vms ls ps =
  MkRun log [] (Some (sshLogin ip (user flags) (port flags))) Exited.
Proof.
  unfold main. rewrite Hhelp, Hcollect.
  destruct availableIps as [|a0 rest]; [now rewrite lookup_nil in Hip|].
  rewrite Hsel. unfold connect.
  assert (Hlt : (Z.to_nat index < length (a0 :: rest))%nat)
    by (eapply lookup_lt_Some; exact Hip).
  destruct (Z.leb_spec 0 index); [|lia].
  destruct (Z.ltb_spec index (Z.of_nat (length (a0 :: rest)))); [|lia].
  cbn [andb]. rewrite Hip, Hask.
  destruct Hprompt as [Hinit | (Hinit & evs & k & more & Hev & Hplain & Hk)].
  - unfold askForUsername. destruct (promptInit ps); [reflexivity|contradiction].
  - unfold askForUsername. rewrite Hinit, Hev, entering_plain by assumption.
    destruct Hk as [-> | ->]; reflexivity.
Qed.

Lemma main_prompt_falls_back_witness :
  main noUnicode guestIfconfig (MkFlags 2222 "admin" false true)
    [(vmLinux, inOrder (VM.Hardware vmLinux))] pickFirst
    (MkPromptSession None ([charPress "j"] ++ keyPress KeyCtrlC :: [])) =
  MkRun [["exec"; "{1f2e}"; "whereis"; "ifconfig"]; ["exec"; "{1f2e}"; "ifconfig"]] []
    (Some (sshLogin (IpAddr.Build eth0 vmLinux "net0" true "bridged") "admin" 2222))
    Exited.
Proof.
  refine (main_prompt_falls_back noUnicode guestIfconfig
            (MkFlags 2222 "admin" false true)
            [(vmLinux, inOrder (VM.Hardware vmLinux))] pickFirst
            (MkPromptSession None ([charPress "j"] ++ keyPress KeyCtrlC :: []))
            [IpAddr.Build eth0 vmLinux "net0" true "bridged"] _ 0 _
            eq_refl eq_refl _ _ _ _ _).
  - vm_compute. reflexivity.
  - vm_compute. reflexivity.
  - lia.
  - reflexivity.
  - right. split; [reflexivity|].
    exists [charPress "j"], KeyCtrlC, []. split; [reflexivity|].
    split; [|left; reflexivity].
    constructor; [intros _; reflexivity|constructor].
Defined.

(** ** The menu lines *)

Lemma countRunes_ascii (s : string) :
  Go.allBytes Go.isASCII s = true -> countRunes 0 s = String.length s.
Proof.
  induction s as [|c s IH]; [reflexivity|]. cbn [Go.allBytes countRunes String.length].
  intros H. apply andb_true_iff in H as [Hc Hs].
  unfold runeSize. rewrite Hc. cbn [Nat.sub]. now rewrite IH.
Qed.

Lemma length_spaces (n : nat) : String.length (spaces n) = n.
Proof. induction n as [|n IH]; [reflexivity|]. cbn. now rewrite IH. Qed.

Lemma length_padRight_ascii (wid : nat) (s : string) :
  Go.allBytes Go.isASCII s = true ->
  String.length (padRight wid s) = Nat.max wid (String.length s).
Proof.
  intros H. unfold padRight, RuneCountInString.
  rewrite length_append, length_spaces, countRunes_ascii by assumption. lia.
Qed.

(** X17.  A menu line has its columns aligned: for an ASCII machine name
    and address, the name takes 20 columns and the address 15, or their
    own length when they are longer (nothing is cut off), so the line is
    [1 + max 20 |name| + 2 + max 15 |ip| + 2 + |type| + 1] bytes long. *)
Theorem displayLine_length (a : IpAddr.t)
  (Hname : Go.allBytes Go.isASCII (VM.Name (IpAddr.VM a)) = true)
  (Hip : Go.allBytes Go.isASCII (LinuxIpAddr.Ip (IpAddr.IP a)) = true) :
  String.length (displayLine a) =
  (1 + Nat.max 20 (String.length (VM.Name (IpAddr.VM a))) + 2
   + Nat.max 15 (String.length (LinuxIpAddr.Ip (IpAddr.IP a))) + 2
   + String.length (IpAddr.Type_ a) + 1)%nat.
Proof.
  unfold displayLine. rewrite !length_append.
  rewrite !length_padRight_ascii by assumption. cbn [String.length]. lia.
Qed.

Lemma displayLine_length_witness :
  String.length (displayLine (IpAddr.Build eth0 vmLinux "net0" true "bridged")) = 48%nat.
Proof.
  exact (displayLine_length (IpAddr.Build eth0 vmLinux "net0" true "bridged")
           eq_refl eq_refl).
Defined.

(** ** [getIps]: errors and commands *)

(** X18.  When [getIps] reports an error it returns no record, and the
    error is either "No command to get ip address" or the error of the
    one listing command it ran. *)
Theorem getIps_error_no_records (prlctl : Prlctl) (vm : VM.t) (e : error)
  (Herr : snd (fst (getIps prlctl vm)) = Some e) :
  fst (fst (getIps prlctl vm)) = []
  /\ (e = errNoCommand
      \/ snd (prlctl (cmdline vm ["ifconfig"%string])) = Some e
      \/ snd (prlctl (cmdline vm ["ip"; "address"; "show"]%string)) = Some e).
Proof.
  revert Herr. unfold getIps, exec.
  fold (cmdline vm ["ifconfig"%string]).
  fold (cmdline vm ["ip"; "address"; "show"]%string).
  destruct (testCommandExists prlctl vm "ifconfig") as [[|] log1].
  - destruct (prlctl (cmdline vm ["ifconfig"%string])) as [output [e'|]];
      cbn; [intros [= ->]; auto|discriminate].
  - destruct (testCommandExists prlctl vm "ip") as [[|] log2].
    + destruct (prlctl (cmdline vm ["ip"; "address"; "show"]%string)) as [output [e'|]];
        cbn; [intros [= ->]; auto|discriminate].
    + cbn. intros [= <-]. auto.
Qed.

Lemma getIps_error_no_records_witness :
  fst (fst (getIps guestNeither vmLinux)) = [].
Proof.
  refine (proj1 (getIps_error_no_records guestNeither vmLinux errNoCommand _)).
  vm_compute. reflexivity.
Defined.

(** X19.  [getIps] runs two or three commands, each through
    [prlctl exec] on the machine it was called for, and none but
    [whereis ifconfig], [whereis ip], [ifconfig] and [ip address show]. *)
Theorem getIps_commands (prlctl : Prlctl) (vm : VM.t) :
  (2 <= length (snd (getIps prlctl vm)) <= 3)%nat
  /\ Forall (fun c =>
              c ∈ [cmdline vm ["whereis"; "ifconfig"]%string;
                   cmdline vm ["whereis"; "ip"]%string;
                   cmdline vm ["ifconfig"%string];
                   cmdline vm ["ip"; "address"; "show"]%string])
       (snd (getIps prlctl vm)).
Proof.
  pose proof (testCommandExists_log prlctl vm "ifconfig") as L1.
  pose proof (testCommandExists_log prlctl vm "ip") as L2.
  unfold getIps, exec.
  fold (cmdline vm ["ifconfig"%string]).
  fold (cmdline vm ["ip"; "address"; "show"]%string).
  destruct (testCommandExists prlctl vm "ifconfig") as [b1 log1].
  destruct (testCommandExists prlctl vm "ip") as [b2 log2].
  cbn [snd] in L1, L2. subst log1 log2.
  destruct b1; [|destruct b2];
    repeat match goal with
           | |- context [prlctl ?c] => destruct (prlctl c) as [? ?]
           end;
    cbn [snd app length]; (split; [lia|]);
    repeat (apply List.Forall_cons; [set_solver|]); apply List.Forall_nil.
Qed.

(** ** [testCommandExists] *)

Lemma prefix_append (p rest : string) : String.prefix p (p ++ rest) = true.
Proof.
  induction p as [|c p IH]; [now destruct rest|].
  rewrite append_cons. cbn [String.prefix].
  destruct (ascii_dec c c); [assumption|contradiction].
Qed.

Lemma dropBytes_append (p rest : string) :
  Go.dropBytes (String.length p) (p ++ rest) = rest.
Proof.
  induction p as [|c p IH]; [now destruct rest|].
  rewrite append_cons. cbn [String.length Go.dropBytes]. exact IH.
Qed.

Lemma hasByteOutside_blank (s : string) :
  Go.hasByteOutside " " s = negb (Go.allBytes (fun c => Ascii.eqb c " ") s).
Proof.
  induction s as [|c s IH]; [reflexivity|].
  cbn [Go.hasByteOutside Go.allBytes list_ascii_of_string existsb].
  rewrite orb_false_r. destruct (Ascii.eqb c " "); [exact IH|reflexivity].
Qed.

Lemma whereisFinds_app (cmd : string) (before lines : list string) :
  Forall (fun l => Go.HasPrefix l (cmd ++ ":") = false) before ->
  whereisFinds cmd (before ++ lines) = whereisFinds cmd lines.
Proof.
  induction 1 as [|l before Hl _ IH]; [reflexivity|].
  cbn [app whereisFinds]. now rewrite Hl.
Qed.

(** X20.  A command counts as present on the guest exactly when the first
    line of the [whereis] answer that starts with "CMD:" goes on with
    something other than blanks; it counts as absent when [whereis] fails
    and when no line starts with "CMD:". *)
Theorem testCommandExists_answer (prlctl : Prlctl) (vm : VM.t) (cmd output : string) :
  (forall e, prlctl (cmdline vm ["whereis"%string; cmd]) = (output, Some e) ->
             fst (testCommandExists prlctl vm cmd) = false)
  /\ (prlctl (cmdline vm ["whereis"%string; cmd]) = (output, None) ->
      Forall (fun l => Go.HasPrefix l (cmd ++ ":") = false) (Go.scanLines output) ->
      fst (testCommandExists prlctl vm cmd) = false)
  /\ (forall before rest after,
        prlctl (cmdline vm ["whereis"%string; cmd]) = (output, None) ->
        Go.scanLines output = before ++ (cmd ++ ":" ++ rest)%string :: after ->
        Forall (fun l => Go.HasPrefix l (cmd ++ ":") = false) before ->
        fst (testCommandExists prlctl vm cmd) =
        negb (Go.allBytes (fun c => Ascii.eqb c " ") rest)).
Proof.
  unfold testCommandExists, exec. fold (cmdline vm ["whereis"%string; cmd]).
  split; [|split].
  - intros e ->. reflexivity.
  - intros -> H. cbn [fst].
    rewrite <- (app_nil_r (Go.scanLines output)). now rewrite whereisFinds_app.
  - intros before rest after -> Hlines Hbefore. cbn [fst].
    rewrite Hlines, whereisFinds_app by assumption. cbn [whereisFinds].
    rewrite <- append_assoc. unfold Go.HasPrefix.
    now rewrite prefix_append, dropBytes_append, hasByteOutside_blank.
Qed.

(** ** [getIps] on an [ifconfig] listing, and line endings *)

(** X21.  The single pass of [getIps] over an [ifconfig] listing yields
    one record per line that opens an interface, in order, each with the
    name from its opening line and the fields of the last address line
    and the last [ether] line among the indented lines that follow it. *)
Theorem assemble_ifconfig (output : string) :
  assemble true output =
  map (fun b => withInfo (newRecord (fst b))
                  (last (omap (inetInfo true) (snd b)))
                  (last (omap (linkInfo true) (snd b))))
    (snd (blocks (Go.scanLines output)))
  /\ length (assemble true output) =
     length (filter (fun l => opensRecord l = true) (Go.scanLines output)).
Proof.
  unfold assemble. rewrite flush_scan. cbn [current ips app]. split.
  - apply map_ext. intros [opening body]. unfold recordOf. cbn [fst snd].
    apply fold_infoLine.
  - rewrite length_map. apply length_blocks.
Qed.

(** The lines, each followed by a newline. *)
Fixpoint unlines (ls : list string) : string :=
  match ls with
  | [] => EmptyString
  | l :: rest => (l ++ String Go.newline (unlines rest))%string
  end.

Lemma rawLines_line (l rest : string) :
  Go.allBytes notNewline l = true ->
  Go.rawLines (l ++ String Go.newline rest) = l :: Go.rawLines rest.
Proof.
  induction l as [|c l IH]; intros H.
  - change ("" ++ String Go.newline rest)%string with (String Go.newline rest).
    cbn [Go.rawLines]. now rewrite Ascii.eqb_refl.
  - rewrite append_cons. cbn [Go.allBytes] in H.
    apply andb_true_iff in H as [Hc Hl]. cbn [Go.rawLines].
    unfold notNewline in Hc. apply negb_true_iff in Hc. rewrite Hc.
    now rewrite IH.
Qed.

Lemma rawLines_unlines (ls : list string) :
  Forall (fun l => Go.allBytes notNewline l = true) ls ->
  Go.rawLines (unlines ls) = ls.
Proof.
  induction 1 as [|l ls Hl _ IH]; [reflexivity|].
  cbn [unlines]. now rewrite rawLines_line, IH.
Qed.

Lemma dropCR_snoc (l : string) :
  Go.dropCR (l ++ String Go.carriageReturn "") = l.
Proof.
  induction l as [|c l IH]; [reflexivity|].
  rewrite append_cons. cbn [Go.dropCR]. rewrite IH.
  destruct l; reflexivity.
Qed.

(** A line as the scanner can deliver it unchanged: no newline inside, no
    carriage return at the end, and room for one in the token buffer. *)
Definition plainLine (l : string) : Prop :=
  Go.allBytes notNewline l = true /\ Go.dropCR l = l
  /\ Go.len l + 1 < Go.MaxScanTokenSize.

Lemma allBytes_append (p : ascii -> bool) (a b : string) :
  Go.allBytes p (a ++ b) = Go.allBytes p a && Go.allBytes p b.
Proof.
  induction a as [|c a IH]; [reflexivity|].
  rewrite append_cons. cbn [Go.allBytes]. now rewrite IH, andb_assoc.
Qed.

(** X22.  The scanner gives back the lines of a text written line by
    line, and the same lines when each carries a carriage return before
    its newline; so a listing with CR LF line ends yields the same records
    as the listing with LF line ends. *)
Theorem scanLines_unlines (ls : list string)
  (Hplain : Forall plainLine ls) :
  Go.scanLines (unlines ls) = ls
  /\ Go.scanLines (unlines (map (fun l => l ++ String Go.carriageReturn "")%string ls)) = ls
  /\ forall f,
      assemble f (unlines (map (fun l => l ++ String Go.carriageReturn "")%string ls)) =
      assemble f (unlines ls).
Proof.
  assert (H1 : Go.scanLines (unlines ls) = ls).
  { unfold Go.scanLines. rewrite rawLines_unlines, fittingTokens_all.
    - induction Hplain as [|l ls (_ & Hd & _) _ IH]; [reflexivity|].
      cbn [map]. now rewrite Hd, IH.
    - eapply Forall_impl; [exact Hplain|]. intros l (_ & _ & H). lia.
    - eapply Forall_impl; [exact Hplain|]. now intros l (H & _). }
  assert (H2 : Go.scanLines
                 (unlines (map (fun l => l ++ String Go.carriageReturn "")%string ls)) = ls).
  { unfold Go.scanLines. rewrite rawLines_unlines, fittingTokens_all.
    - rewrite map_map. clear. induction ls as [|l ls IH]; [reflexivity|].
      cbn [map]. now rewrite dropCR_snoc, IH.
    - apply Forall_map. eapply Forall_impl; [exact Hplain|]. cbn beta.
      intros l (_ & _ & H). unfold Go.len in *. rewrite length_append.
      cbn [String.length]. lia.
    - apply Forall_map. eapply Forall_impl; [exact Hplain|]. cbn beta.
      intros l (H & _). rewrite allBytes_append, H. reflexivity. }
  split; [assumption|]. split; [assumption|].
  intros f. unfold assemble. now rewrite H1, H2.
Qed.

Lemma scanLines_unlines_witness :
  Go.scanLines (unlines ["eth0: flags=4163<UP>  mtu 1500";
                         "        ether 00:1c:42:c4:5c:24"]) =
  ["eth0: flags=4163<UP>  mtu 1500"; "        ether 00:1c:42:c4:5c:24"]%string.
Proof.
  refine (proj1 (scanLines_unlines _ _)).
  constructor; [|constructor; [|constructor]];
    (split; [reflexivity|split; [reflexivity|vm_compute; reflexivity]]).
Defined.

(** ** [compareMac] on a MAC of twelve bytes *)

(** X23.  A hypervisor MAC of twelve ASCII bytes is compared as six pairs
    in lower case with colons between them: [compareMac] returns, and is
    true exactly for the guest MAC that reads so. *)
Theorem compareMac_twelve (u : string -> string) (linuxMac : string)
  (c1 c2 c3 c4 c5 c6 c7 c8 c9 c10 c11 c12 : ascii)
  (Hascii : Go.allBytes Go.isASCII
              (String c1 (String c2 (String c3 (String c4 (String c5 (String c6
              (String c7 (String c8 (String c9 (String c10 (String c11
              (String c12 ""))))))))))))
            = true) :
  let l := Go.lowerByte in
  compareMac u linuxMac
    (String c1 (String c2 (String c3 (String c4 (String c5 (String c6
    (String c7 (String c8 (String c9 (String c10 (String c11
    (String c12 "")))))))))))) =
  Go.Returned
    (String.eqb linuxMac
       (String (l c1) (String (l c2) (String ":"
       (String (l c3) (String (l c4) (String ":"
       (String (l c5) (String (l c6) (String ":"
       (String (l c7) (String (l c8) (String ":"
       (String (l c9) (String (l c10) (String ":"
       (String (l c11) (String (l c12) "")))))))))))))))))).
Proof.
  intros l. unfold compareMac, normalizeMac.
  rewrite ToLower_ascii by assumption. reflexivity.
Qed.

Lemma compareMac_twelve_witness :
  compareMac noUnicode "00:1c:42:c4:5c:24" "001C42C45C24" = Go.Returned true.
Proof.
  exact (compareMac_twelve noUnicode "00:1c:42:c4:5c:24"
           "0" "0" "1" "C" "4" "2" "C" "4" "5" "C" "2" "4" eq_refl).
Defined.

(** ** What an entry says about its adapter *)

Lemma matchAdapter_fields u vm ip visit a :
  matchAdapter u vm ip visit = Go.Returned (Some a) ->
  exists params,
    (IpAddr.Name a, params) ∈ visit
    /\ IpAddr.Type_ a = asString (params !! "type")
    /\ IpAddr.IsDefault a = isString (params !! "iface") "default".
Proof.
  induction visit as [|[dev params] rest IH]; [discriminate|].
  cbn [matchAdapter]. intros H.
  assert (Hrest : matchAdapter u vm ip rest = Go.Returned (Some a) ->
                  exists q, (IpAddr.Name a, q) ∈ (dev, params) :: rest
                            /\ IpAddr.Type_ a = asString (q !! "type")
                            /\ IpAddr.IsDefault a = isString (q !! "iface") "default").
  { intros Hr. destruct (IH Hr) as (q & Hq & Hrest). exists q.
    split; [apply elem_of_cons; now right|assumption]. }
  destruct (Go.HasPrefix dev "net"); [|auto].
  destruct (isTrue (params !! "enabled")); [|auto].
  destruct (compareMac u (LinuxIpAddr.Mac ip) (asString (params !! "mac")))
    as [[|]|]; unfold mbind, outcome_bind, Go.bind in H; [| auto |discriminate].
  injection H as <-. exists params. cbn.
  split; [apply elem_of_cons; now left|split; reflexivity].
Qed.

Lemma correlate_fields u vm order k ips addrs res :
  ranges (VM.Hardware vm) order ->
  correlate u vm order k ips addrs = Go.Returned res ->
  forall a, a ∈ res ->
    a ∈ addrs
    \/ exists params,
         VM.Hardware vm !! IpAddr.Name a = Some params
         /\ IpAddr.Type_ a = asString (params !! "type")
         /\ IpAddr.IsDefault a = isString (params !! "iface") "default".
Proof.
  intros Hord. revert k addrs. induction ips as [|ip ips IH]; intros k addrs.
  - intros [= <-] a Ha. now left.
  - cbn [correlate].
    destruct (matchAdapter u vm ip (order k)) as [found|] eqn:Hm; [|discriminate].
    unfold_bind. intros H a Ha. destruct (IH _ _ H a Ha) as [Hin|Hnew]; [|now right].
    destruct found as [b|]; [|now left].
    apply elem_of_app in Hin as [Hin|Hin]; [now left|].
    apply list_elem_of_singleton in Hin as ->. right.
    destruct (matchAdapter_fields _ _ _ _ _ Hm) as (params & Hp & Ht & Hd).
    exists params. eauto using ranges_lookup.
Qed.

(** X24.  An entry of [showIpAddress] shows the "type" text of the
    adapter it names (empty when the adapter has none), and is marked as
    the default exactly when the adapter's "iface" is the text
    "default". *)
Theorem showIpAddress_entry_fields (u : string -> string) (prlctl : Prlctl)
  (vm : VM.t) (order : RangeOrder) (addrs : list IpAddr.t) (err : option error)
  (a : IpAddr.t)
  (Hord : ranges (VM.Hardware vm) order)
  (Hres : fst (showIpAddress u prlctl vm order) = Go.Returned (addrs, err))
  (Ha : a ∈ addrs) :
  exists params,
    VM.Hardware vm !! IpAddr.Name a = Some params
    /\ IpAddr.Type_ a = asString (params !! "type")
    /\ IpAddr.IsDefault a = isString (params !! "iface") "default".
Proof.
  revert Hres Ha. unfold showIpAddress.
  destruct (negb _); [intros [= <- <-] H; now apply elem_of_nil in H|].
  destruct (_ || _); [|intros [= <- <-] H; now apply elem_of_nil in H].
  destruct (getIps prlctl vm) as [[ips [e|]] log]; cbn [fst];
    [intros [= <- <-] H; now apply elem_of_nil in H|].
  destruct (correlate u vm order 0 ips []) as [res|] eqn:Hc; [|discriminate].
  unfold_bind. intros [= <- <-] Ha.
  destruct (correlate_fields _ _ _ _ _ _ _ Hord Hc a Ha) as [Hin|H]; [|exact H].
  now apply elem_of_nil in Hin.
Qed.

Lemma showIpAddress_entry_fields_witness :
  exists params,
    VM.Hardware vmLinux !! "net0"%string = Some params
    /\ "bridged"%string = asString (params !! "type")
    /\ true = isString (params !! "iface") "default".
Proof.
  refine (showIpAddress_entry_fields noUnicode guestIfconfig vmLinux
            (inOrder (VM.Hardware vmLinux))
            [IpAddr.Build eth0 vmLinux "net0" true "bridged"] None
            (IpAddr.Build eth0 vmLinux "net0" true "bridged") _ _ _).
  - intros k. reflexivity.
  - vm_compute. reflexivity.
  - apply elem_of_cons. now left.
Defined.

(** ** Collecting over the machines *)

(** The addresses a machine contributes and the commands run for it. *)
Definition contribution (r : Go.Outcome (list IpAddr.t * option error) * Log)
  : list IpAddr.t :=
  match fst r with
  | Go.Returned (ips, None) => ips
  | _ => []
  end.

Lemma collect_cons_returned u prlctl vm order rest acc :
  Go.returns (fst (showIpAddress u prlctl vm order)) = true ->
  collect u prlctl ((vm, order) :: rest) acc =
  (fst (collect u prlctl rest (acc ++ contribution (showIpAddress u prlctl vm order))),
   snd (showIpAddress u prlctl vm order)
     ++ snd (collect u prlctl rest
               (acc ++ contribution (showIpAddress u prlctl vm order)))).
Proof.
  cbn [collect]. unfold contribution.
  destruct (showIpAddress u prlctl vm order) as [[[ips [e|]]|p] log];
    cbn [fst snd Go.returns]; try discriminate; intros _;
    rewrite ?app_nil_r;
    match goal with |- context [collect u prlctl rest ?x] =>
      destruct (collect u prlctl rest x) end; reflexivity.
Qed.

(** X25.  When no machine makes [showIpAddress] panic, [main] collects
    the addresses in the order of the inventory: the result is the
    addresses of the machines that reported no error, one machine after
    the other, and the commands run are those of the machines in the
    same order. *)
Theorem collect_in_order (u : string -> string) (prlctl : Prlctl)
  (vms : list (VM.t * RangeOrder)) (acc : list IpAddr.t)
  (Hret : Forall (fun vo => Go.returns (fst (showIpAddress u prlctl (fst vo) (snd vo)))
                            = true) vms) :
  collect u prlctl vms acc =
  (Go.Returned
     (acc ++ concat (map (fun vo => contribution (showIpAddress u prlctl (fst vo) (snd vo)))
                       vms)),
   concat (map (fun vo => snd (showIpAddress u prlctl (fst vo) (snd vo))) vms)).
Proof.
  revert acc. induction Hret as [|[vm order] vms Hvm _ IH]; intros acc.
  - cbn. now rewrite app_nil_r.
  - cbn [fst snd] in Hvm. rewrite collect_cons_returned by assumption.
    rewrite IH. cbn [fst snd map concat]. now rewrite app_assoc.
Qed.

Lemma collect_in_order_witness :
  collect noUnicode guestIfconfig
    [(vmStopped, inOrder (VM.Hardware vmStopped));
     (vmLinux, inOrder (VM.Hardware vmLinux))] [] =
  (Go.Returned
     ([] ++ concat (map (fun vo => contribution
                                     (showIpAddress noUnicode guestIfconfig (fst vo) (snd vo)))
                      [(vmStopped, inOrder (VM.Hardware vmStopped));
                       (vmLinux, inOrder (VM.Hardware vmLinux))])),
   concat (map (fun vo => snd (showIpAddress noUnicode guestIfconfig (fst vo) (snd vo)))
             [(vmStopped, inOrder (VM.Hardware vmStopped));
              (vmLinux, inOrder (VM.Hardware vmLinux))])).
Proof.
  apply collect_in_order.
  constructor; [vm_compute; reflexivity|].
  constructor; [vm_compute; reflexivity|constructor].
Defined.

(** X26.  A machine that makes [showIpAddress] panic ends the run: when
    the machines in front of it return, [main] crashes with that panic
    after the commands of those machines and of the panicking one; the
    machines behind it are not asked, nothing is printed and no [ssh] is
    started. *)
Theorem main_crashes_on_panic (u : string -> string) (prlctl : Prlctl)
  (flags : Flags) (before after : list (VM.t * RangeOrder))
  (vm : VM.t) (order : RangeOrder) (p : Go.RuntimePanic) (log : Log)
  (ls : ListSession) (ps : PromptSession)
  (Hhelp : help flags = false)
  (Hbefore : Forall (fun vo => Go.returns (fst (showIpAddress u prlctl (fst vo) (snd vo)))
                               = true) before)
  (Hpanic : showIpAddress u prlctl vm order = (Go.Panicked p, log)) :
  main u prlctl flags (before ++ (vm, order) :: after) ls ps =
  MkRun (concat (map (fun vo => snd (showIpAddress u prlctl (fst vo) (snd vo))) before)
           ++ log)
    [] None (Crashed p).
Proof.
  assert (H : forall acc,
             collect u prlctl (before ++ (vm, order) :: after) acc =
             (Go.Panicked p,
              concat (map (fun vo => snd (showIpAddress u prlctl (fst vo) (snd vo))) before)
                ++ log)).
  { induction Hbefore as [|[vm' order'] before Hvm _ IH]; intros acc.
    - cbn [app collect map concat]. now rewrite Hpanic.
    - cbn [fst snd] in Hvm. cbn [app]. rewrite collect_cons_returned by assumption.
      rewrite IH. cbn [fst snd map concat]. now rewrite app_assoc. }
  unfold main. now rewrite Hhelp, H.
Qed.

Lemma main_crashes_on_panic_witness :
  main noUnicode guestIfconfig flagsDefault
    ([(vmStopped, inOrder (VM.Hardware vmStopped))]
       ++ (vmNoMac, inOrder (VM.Hardware vmNoMac))
       :: [(vmLinux, inOrder (VM.Hardware vmLinux))]) pickFirst noPrompt =
  MkRun (concat (map (fun vo => snd (showIpAddress noUnicode guestIfconfig (fst vo) (snd vo)))
                   [(vmStopped, inOrder (VM.Hardware vmStopped))])
           ++ [["exec"; "{1f2e}"; "whereis"; "ifconfig"]; ["exec"; "{1f2e}"; "ifconfig"]])
    [] None (Crashed (Go.SliceBoundsOutOfRange 0 2 0)).
Proof.
  apply main_crashes_on_panic.
  - reflexivity.
  - constructor; [vm_compute; reflexivity|constructor].
  - vm_compute. reflexivity.
Defined.
